(** * Flow2API: the credential store, its administrative endpoints and the
      auto-unban task

    A shallow embedding of

    - [src/core/database_pg.py]  (class [PostgresDatabase]: the tables of
      [init_db] and the statements issued on them),
    - [src/api/admin.py]         (the endpoints [update_token] and [refresh_at]),
    - [src/main.py]              (the coroutine [auto_unban_task] and the
      shutdown half of [lifespan]),

    followed by the properties established about them.

    Conventions.  A coroutine that issues SQL is a computation in the monad
    [M]: it reads and writes a [world] and ends either with a value or with a
    raised exception.  The connection is used outside any transaction block,
    so every statement is committed on its own; a statement that raises leaves
    the rows of the statements before it in place.  [date.today()],
    [CURRENT_TIMESTAMP] and the offset of the server's local time zone are
    read from a [clock] handed to the coroutine.  Python floats are not part
    of the embedded value universe. *)

From Stdlib Require Import ZArith List String Ascii Bool Lia.
From Stdlib Require Import Sorted Permutation.
From Stdlib Require Import DecimalString.
Import ListNotations.

Local Open Scope string_scope.
Local Open Scope list_scope.
Local Open Scope Z_scope.

(* ===================================================================== *)
(** * Python values and exceptions *)
(* ===================================================================== *)

(** A [datetime]: the wall-clock reading in microseconds since the epoch and,
    for an aware value, the UTC offset of its [tzinfo] in microseconds.  A
    TIMESTAMP column holds naive values. *)
Record datetime := mk_datetime { micros : Z; utcoffset : option Z }.

(** A [date] as its proleptic ordinal. *)
Definition date := Z.

Inductive pyval :=
| PyNone
| PyBool (b : bool)
| PyInt (n : Z)
| PyStr (s : string)
| PyDatetime (d : datetime).

(** The exception classes that occur.  [CancelledError] derives from
    [BaseException] (Python 3.8 and later), every other class from
    [Exception]. *)
Inductive exn_class :=
| UniqueViolationError
| ForeignKeyViolationError
| NumericValueOutOfRangeError
| UndefinedColumnError
| DataError
| ConnectionDoesNotExistError
| KeyError
| AttributeError
| OverflowError
| ValueError
| OSError
| RuntimeError
| CancelledError.

Inductive exn :=
| Raised (cls : exn_class) (msg : string)
| HTTPException (status_code : Z) (detail : string).

(** [isinstance(e, Exception)] *)
Definition is_Exception (e : exn) : bool :=
  match e with
  | Raised CancelledError _ => false
  | _ => true
  end.

(** [isinstance(e, HTTPException)] *)
Definition is_HTTPException (e : exn) : bool :=
  match e with
  | HTTPException _ _ => true
  | _ => false
  end.

Definition string_of_Z (z : Z) : string := NilZero.string_of_int (Z.to_int z).

(** [str(e)] *)
Definition str (e : exn) : string :=
  match e with
  | Raised _ msg => msg
  | HTTPException c d => (string_of_Z c ++ ": " ++ d)%string
  end.

(** Truth value of a Python object, as tested by [if x:]. *)
Definition truthy (v : pyval) : bool :=
  match v with
  | PyNone => false
  | PyBool b => b
  | PyInt n => negb (n =? 0)
  | PyStr s => negb (s =? "")%string
  | PyDatetime _ => true
  end.

(** [s.endswith(suffix)] *)
Fixpoint endswith (s suffix : string) : bool :=
  (s =? suffix)%string ||
  match s with
  | EmptyString => false
  | String _ s' => endswith s' suffix
  end.

(** [dict.get]-style lookup in an insertion-ordered dict. *)
Fixpoint dict_get {A : Type} (k : string) (d : list (string * A)) : option A :=
  match d with
  | [] => None
  | (k', v) :: d' => if (k' =? k)%string then Some v else dict_get k d'
  end.

(** The 32-bit range of an INTEGER column. *)
Definition int4_ok (z : Z) : bool := (-2147483648 <=? z) && (z <=? 2147483647).

(* ===================================================================== *)
(** * The tables of [init_db] *)
(* ===================================================================== *)

(** [tokens]: [st TEXT UNIQUE NOT NULL], [email TEXT NOT NULL], [id SERIAL
    PRIMARY KEY]; every other column is nullable.  The pydantic model [Token]
    is built from [dict(row)], keyword by keyword, and has the same fields. *)
Module Token.
Record t := mk {
  id : Z;
  st : string;
  at_ : option string;
  at_expires : option datetime;
  email : string;
  name : option string;
  remark : option string;
  is_active : option bool;
  created_at : option datetime;
  last_used_at : option datetime;
  use_count : option Z;
  credits : option Z;
  user_paygate_tier : option string;
  current_project_id : option string;
  current_project_name : option string;
  image_enabled : option bool;
  video_enabled : option bool;
  image_concurrency : option Z;
  video_concurrency : option Z;
  ban_reason : option string;
  banned_at : option datetime
}.
End Token.

(** [projects]: [project_id TEXT UNIQUE NOT NULL],
    [token_id INTEGER NOT NULL REFERENCES tokens(id)]. *)
Module Project.
Record t := mk {
  id : Z;
  project_id : string;
  token_id : Z;
  project_name : string;
  tool_name : option string;
  is_active : option bool;
  created_at : option datetime
}.
End Project.

(** [token_stats]: [token_id INTEGER NOT NULL REFERENCES tokens(id)].  The
    counters are [INTEGER DEFAULT 0]: the only INSERT on this table names
    [token_id] alone and no UPDATE assigns NULL, so a counter always holds a
    number. *)
Module TokenStats.
Record t := mk {
  id : Z;
  token_id : Z;
  image_count : Z;
  video_count : Z;
  success_count : Z;
  error_count : Z;
  last_success_at : option datetime;
  last_error_at : option datetime;
  today_image_count : Z;
  today_video_count : Z;
  today_error_count : Z;
  today_date : option date;
  consecutive_error_count : Z
}.
End TokenStats.

(** [tasks]: [task_id TEXT UNIQUE NOT NULL],
    [token_id INTEGER NOT NULL REFERENCES tokens(id)]. *)
Module Task.
Record t := mk {
  id : Z;
  task_id : string;
  token_id : Z;
  model : string;
  prompt : string;
  status : string;
  progress : option Z;
  scene_id : option string;
  created_at : option datetime
}.
End Task.

(** [request_logs]: [token_id INTEGER REFERENCES tokens(id)] (nullable).  The
    bodies and the FLOAT [duration] play no part in any constraint and are
    not carried. *)
Module RequestLog.
Record t := mk {
  id : Z;
  token_id : option Z;
  operation : string;
  status_code : Z;
  created_at : option datetime
}.
End RequestLog.

(** The database: the five tables that reference credentials, and the
    sequences behind their SERIAL keys. *)
Record db := mk_db {
  tokens : list Token.t;
  token_stats : list TokenStats.t;
  projects : list Project.t;
  tasks : list Task.t;
  request_logs : list RequestLog.t;
  tokens_id_seq : Z;
  token_stats_id_seq : Z;
  projects_id_seq : Z;
  tasks_id_seq : Z;
  request_logs_id_seq : Z
}.

(** The database right after [init_db] on a fresh server: empty tables,
    sequences at their first value. *)
Definition init_db : db :=
  mk_db [] [] [] [] [] 1 1 1 1 1.

(* ===================================================================== *)
(** * Coroutines over the store *)
(* ===================================================================== *)

(** What a coroutine can touch: the database, the standard output, and the
    fate of the statements it will send.  [faults] is read one entry per
    statement; [true] means that the statement does not reach the server (the
    connection is lost, or the task is cancelled while it awaits) and raises
    instead.  An exhausted list means no further fault. *)
Record world := mk_world {
  store : db;
  faults : list bool;
  stdout : list string
}.

Record clock := mk_clock {
  today : date;               (* date.today() *)
  current_timestamp : datetime; (* CURRENT_TIMESTAMP *)
  local_utcoffset : Z -> Z    (* seconds east of UTC in the server's zone,
                                 at an instant in seconds since the epoch *)
}.

Definition M (A : Type) : Type := world -> (exn + A) * world.

Definition ret {A : Type} (a : A) : M A := fun w => (inr a, w).

Definition raise {A : Type} (e : exn) : M A := fun w => (inl e, w).

Definition bind {A B : Type} (c : M A) (k : A -> M B) : M B :=
  fun w =>
    match c w with
    | (inl e, w') => (inl e, w')
    | (inr a, w') => k a w'
    end.

(** [try: c  except <classes accepted by handles> as e: h e] *)
Definition try_except {A : Type} (c : M A) (handles : exn -> bool) (h : exn -> M A) : M A :=
  fun w =>
    match c w with
    | (inl e, w') => if handles e then h e w' else (inl e, w')
    | (inr a, w') => (inr a, w')
    end.

Declare Scope coroutine_scope.
Delimit Scope coroutine_scope with coroutine.
Notation "x <- c ;; k" := (bind c (fun x => k))
  (at level 61, c at next level, right associativity) : coroutine_scope.
Notation "c ;; k" := (bind c (fun _ => k))
  (at level 61, right associativity) : coroutine_scope.
Local Open Scope coroutine_scope.

(** A statement computes on the database; it may raise, and it may leave a
    trace even then (a sequence is advanced whether or not the INSERT that
    drew from it goes through). *)
Definition statement (A : Type) : Type := db -> (exn + A) * db.

(** [await conn.execute(...)], [conn.fetch...(...)]: one round trip. *)
Definition conn_run {A : Type} (s : statement A) : M A :=
  fun w =>
    match faults w with
    | true :: fs =>
        (inl (Raised ConnectionDoesNotExistError "connection was closed in the middle of operation"),
         mk_world (store w) fs (stdout w))
    | fl =>
        let (r, d) := s (store w) in
        (r, mk_world d (tl fl) (stdout w))
    end.

(** A query: reads, never raises on its own. *)
Definition query {A : Type} (q : db -> A) : statement A := fun d => (inr (q d), d).

(** [print(...)] *)
Definition print (line : string) : M unit :=
  fun w => (inr tt, mk_world (store w) (faults w) (stdout w ++ [line])).

(* ===================================================================== *)
(** * [src/core/database_pg.py]: class [PostgresDatabase] *)
(* ===================================================================== *)

Module PostgresDatabase.

(** ** Replacing one table *)

Definition with_tokens (rows : list Token.t) (d : db) : db :=
  mk_db rows (token_stats d) (projects d) (tasks d) (request_logs d)
        (tokens_id_seq d) (token_stats_id_seq d) (projects_id_seq d)
        (tasks_id_seq d) (request_logs_id_seq d).

Definition with_token_stats (rows : list TokenStats.t) (d : db) : db :=
  mk_db (tokens d) rows (projects d) (tasks d) (request_logs d)
        (tokens_id_seq d) (token_stats_id_seq d) (projects_id_seq d)
        (tasks_id_seq d) (request_logs_id_seq d).

Definition with_projects (rows : list Project.t) (d : db) : db :=
  mk_db (tokens d) (token_stats d) rows (tasks d) (request_logs d)
        (tokens_id_seq d) (token_stats_id_seq d) (projects_id_seq d)
        (tasks_id_seq d) (request_logs_id_seq d).

Definition with_tasks (rows : list Task.t) (d : db) : db :=
  mk_db (tokens d) (token_stats d) (projects d) rows (request_logs d)
        (tokens_id_seq d) (token_stats_id_seq d) (projects_id_seq d)
        (tasks_id_seq d) (request_logs_id_seq d).

Definition with_request_logs (rows : list RequestLog.t) (d : db) : db :=
  mk_db (tokens d) (token_stats d) (projects d) (tasks d) rows
        (tokens_id_seq d) (token_stats_id_seq d) (projects_id_seq d)
        (tasks_id_seq d) (request_logs_id_seq d).

(** [nextval] on each sequence. *)
Definition nextval_tokens (d : db) : db :=
  mk_db (tokens d) (token_stats d) (projects d) (tasks d) (request_logs d)
        (tokens_id_seq d + 1) (token_stats_id_seq d) (projects_id_seq d)
        (tasks_id_seq d) (request_logs_id_seq d).

Definition nextval_token_stats (d : db) : db :=
  mk_db (tokens d) (token_stats d) (projects d) (tasks d) (request_logs d)
        (tokens_id_seq d) (token_stats_id_seq d + 1) (projects_id_seq d)
        (tasks_id_seq d) (request_logs_id_seq d).

Definition nextval_projects (d : db) : db :=
  mk_db (tokens d) (token_stats d) (projects d) (tasks d) (request_logs d)
        (tokens_id_seq d) (token_stats_id_seq d) (projects_id_seq d + 1)
        (tasks_id_seq d) (request_logs_id_seq d).

Definition nextval_tasks (d : db) : db :=
  mk_db (tokens d) (token_stats d) (projects d) (tasks d) (request_logs d)
        (tokens_id_seq d) (token_stats_id_seq d) (projects_id_seq d)
        (tasks_id_seq d + 1) (request_logs_id_seq d).

Definition nextval_request_logs (d : db) : db :=
  mk_db (tokens d) (token_stats d) (projects d) (tasks d) (request_logs d)
        (tokens_id_seq d) (token_stats_id_seq d) (projects_id_seq d)
        (tasks_id_seq d) (request_logs_id_seq d + 1).

(** ** Constraints *)

Definition violation {A : Type} (cls : exn_class) (what : string) (d : db) : (exn + A) * db :=
  (inl (Raised cls what), d).

(** No value occurs twice (PRIMARY KEY, UNIQUE). *)
Fixpoint distinct {A : Type} (eqb : A -> A -> bool) (l : list A) : bool :=
  match l with
  | [] => true
  | x :: l' => negb (existsb (eqb x) l') && distinct eqb l'
  end.

Definition has_token (token_id : Z) (rows : list Token.t) : bool :=
  existsb (fun r => Token.id r =? token_id) rows.

(** Is the credential [token_id] the target of a REFERENCES tokens(id)? *)
Definition referenced (token_id : Z) (d : db) : bool :=
  existsb (fun s => TokenStats.token_id s =? token_id) (token_stats d)
  || existsb (fun p => Project.token_id p =? token_id) (projects d)
  || existsb (fun t => Task.token_id t =? token_id) (tasks d)
  || existsb (fun l => match RequestLog.token_id l with
                       | Some i => i =? token_id
                       | None => false
                       end) (request_logs d).

(** Every REFERENCES tokens(id) of the database resolves in [rows]. *)
Definition references_resolve (rows : list Token.t) (d : db) : bool :=
  forallb (fun s => has_token (TokenStats.token_id s) rows) (token_stats d)
  && forallb (fun p => has_token (Project.token_id p) rows) (projects d)
  && forallb (fun t => has_token (Task.token_id t) rows) (tasks d)
  && forallb (fun l => match RequestLog.token_id l with
                       | Some i => has_token i rows
                       | None => true
                       end) (request_logs d).

(** An argument bound to an INTEGER parameter has to fit 32 bits; the driver
    refuses it otherwise. *)
Definition int4_param {A : Type} (n : Z) (s : statement A) : statement A :=
  fun d =>
    if int4_ok n then s d
    else violation DataError "invalid input for query argument" d.

Definition opt_int4_ok (o : option Z) : bool :=
  match o with
  | Some z => int4_ok z
  | None => true
  end.

(** [_normalize_dt]: an aware datetime is moved to UTC and stripped of its
    zone; a naive one, and [None], pass through. *)
Definition astimezone_utc_naive (x : datetime) : datetime :=
  match utcoffset x with
  | Some off => mk_datetime (micros x - off) None
  | None => x
  end.

Definition _normalize_dt (dt : option datetime) : option datetime :=
  match dt with
  | Some x => Some (astimezone_utc_naive x)
  | None => None
  end.

(** ** [add_token] *)

(** INSERT INTO tokens (st, at, at_expires, email, name, remark, is_active,
    credits, user_paygate_tier, current_project_id, current_project_name,
    image_enabled, video_enabled, image_concurrency, video_concurrency)
    VALUES (...) RETURNING id.
    [id], [created_at] and [use_count] take their defaults; [last_used_at],
    [ban_reason] and [banned_at] have none and start NULL. *)
Definition sql_insert_token (clk : clock) (token : Token.t) : statement Z :=
  fun d =>
    if negb (opt_int4_ok (Token.credits token)
             && opt_int4_ok (Token.image_concurrency token)
             && opt_int4_ok (Token.video_concurrency token))
    then violation DataError "invalid input for query argument" d
    else
      let new_id := tokens_id_seq d in
      let d' := nextval_tokens d in
      let row :=
        Token.mk new_id (Token.st token) (Token.at_ token)
                 (_normalize_dt (Token.at_expires token)) (Token.email token)
                 (Token.name token) (Token.remark token) (Token.is_active token)
                 (Some (current_timestamp clk)) None (Some 0)
                 (Token.credits token) (Token.user_paygate_tier token)
                 (Token.current_project_id token) (Token.current_project_name token)
                 (Token.image_enabled token) (Token.video_enabled token)
                 (Token.image_concurrency token) (Token.video_concurrency token)
                 None None in
      if negb (int4_ok new_id) then violation NumericValueOutOfRangeError "tokens_id_seq" d
      else if has_token new_id (tokens d) then violation UniqueViolationError "tokens_pkey" d'
      else if existsb (fun r => (Token.st r =? Token.st token)%string) (tokens d)
      then violation UniqueViolationError "tokens_st_key" d'
      else (inr new_id, with_tokens (tokens d ++ [row]) d').

(** INSERT INTO token_stats (token_id) VALUES ($1): every counter takes its
    DEFAULT 0, the timestamps and [today_date] start NULL. *)
Definition sql_insert_token_stats (token_id : Z) : statement unit :=
  fun d =>
    if negb (int4_ok token_id) then violation DataError "invalid input for query argument" d
    else
      let new_id := token_stats_id_seq d in
      let d' := nextval_token_stats d in
      let row := TokenStats.mk new_id token_id 0 0 0 0 None None 0 0 0 None 0 in
      if negb (int4_ok new_id) then violation NumericValueOutOfRangeError "token_stats_id_seq" d
      else if existsb (fun s => TokenStats.id s =? new_id) (token_stats d)
      then violation UniqueViolationError "token_stats_pkey" d'
      else if negb (has_token token_id (tokens d))
      then violation ForeignKeyViolationError "token_stats_token_id_fkey" d'
      else (inr tt, with_token_stats (token_stats d ++ [row]) d').

Definition add_token (clk : clock) (token : Token.t) : M Z :=
  token_id <- conn_run (sql_insert_token clk token) ;;
  conn_run (sql_insert_token_stats token_id) ;;
  ret token_id.

(** ** [get_token], [get_token_by_st], [get_token_stats] *)

Definition get_token (token_id : Z) : M (option Token.t) :=
  conn_run (int4_param token_id
              (query (fun d => find (fun r => Token.id r =? token_id) (tokens d)))).

Definition get_token_by_st (st : string) : M (option Token.t) :=
  conn_run (query (fun d => find (fun r => (Token.st r =? st)%string) (tokens d))).

Definition get_token_stats (token_id : Z) : M (option TokenStats.t) :=
  conn_run (int4_param token_id
              (query (fun d => find (fun s => TokenStats.token_id s =? token_id)
                                    (token_stats d)))).

(** ** [get_active_tokens] *)

(** The order of [ORDER BY last_used_at ASC] in PostgreSQL: ascending on the
    values, and a NULL sorts as if larger than every value (NULLS LAST is the
    default of ASC).  [timestamp_asc a b] says that a row with key [a] may
    come before a row with key [b]. *)
Definition timestamp_asc (a b : option datetime) : bool :=
  match a, b with
  | _, None => true
  | None, Some _ => false
  | Some x, Some y => micros x <=? micros y
  end.

Fixpoint insert_by_last_used_at (r : Token.t) (rows : list Token.t) : list Token.t :=
  match rows with
  | [] => [r]
  | r' :: rows' =>
      if timestamp_asc (Token.last_used_at r) (Token.last_used_at r')
      then r :: rows
      else r' :: insert_by_last_used_at r rows'
  end.

(** The sort step of the query.  PostgreSQL leaves the order of rows with
    equal keys open; this one keeps them in table order. *)
Definition order_by_last_used_at_asc (rows : list Token.t) : list Token.t :=
  fold_right insert_by_last_used_at [] rows.

(** WHERE is_active = true: a NULL flag does not qualify. *)
Definition where_is_active (r : Token.t) : bool :=
  match Token.is_active r with
  | Some b => b
  | None => false
  end.

(** SELECT * FROM tokens WHERE is_active = true ORDER BY last_used_at ASC *)
Definition sql_select_active_tokens : statement (list Token.t) :=
  query (fun d => order_by_last_used_at_asc (filter where_is_active (tokens d))).

Definition get_active_tokens : M (list Token.t) :=
  conn_run sql_select_active_tokens.

(** What the query allows as an answer, whatever the order among equal keys:
    the active rows, each once, in an order accepted by [timestamp_asc]. *)
Definition asc (a b : Token.t) : Prop :=
  timestamp_asc (Token.last_used_at a) (Token.last_used_at b) = true.

Definition answers_active_tokens (d : db) (rows : list Token.t) : Prop :=
  Permutation rows (filter where_is_active (tokens d))
  /\ StronglySorted asc rows.

(** ** [update_token] *)

(** The columns of [tokens], which the keyword names of [update_token] are
    spliced into the statement as. *)
Inductive tokens_column :=
| col_id | col_st | col_at | col_at_expires | col_email | col_name | col_remark
| col_is_active | col_created_at | col_last_used_at | col_use_count | col_credits
| col_user_paygate_tier | col_current_project_id | col_current_project_name
| col_image_enabled | col_video_enabled | col_image_concurrency
| col_video_concurrency | col_ban_reason | col_banned_at.

Definition tokens_columns : list (string * tokens_column) :=
  [ ("id", col_id); ("st", col_st); ("at", col_at); ("at_expires", col_at_expires);
    ("email", col_email); ("name", col_name); ("remark", col_remark);
    ("is_active", col_is_active); ("created_at", col_created_at);
    ("last_used_at", col_last_used_at); ("use_count", col_use_count);
    ("credits", col_credits); ("user_paygate_tier", col_user_paygate_tier);
    ("current_project_id", col_current_project_id);
    ("current_project_name", col_current_project_name);
    ("image_enabled", col_image_enabled); ("video_enabled", col_video_enabled);
    ("image_concurrency", col_image_concurrency);
    ("video_concurrency", col_video_concurrency);
    ("ban_reason", col_ban_reason); ("banned_at", col_banned_at) ].

Inductive sqltype := INTEGER | TEXT | BOOLEAN | TIMESTAMP.

Definition column_type (c : tokens_column) : sqltype :=
  match c with
  | col_id | col_use_count | col_credits
  | col_image_concurrency | col_video_concurrency => INTEGER
  | col_st | col_at | col_email | col_name | col_remark | col_user_paygate_tier
  | col_current_project_id | col_current_project_name | col_ban_reason => TEXT
  | col_is_active | col_image_enabled | col_video_enabled => BOOLEAN
  | col_at_expires | col_created_at | col_last_used_at | col_banned_at => TIMESTAMP
  end.

Inductive sqlval :=
| SqlNull
| SqlInt (n : Z)
| SqlText (s : string)
| SqlBool (b : bool)
| SqlTimestamp (d : datetime).

Definition sql_of {A : Type} (inj : A -> sqlval) (o : option A) : sqlval :=
  match o with
  | Some a => inj a
  | None => SqlNull
  end.

(** The value a row holds in a column. *)
Definition column_value (c : tokens_column) (r : Token.t) : sqlval :=
  match c with
  | col_id => SqlInt (Token.id r)
  | col_st => SqlText (Token.st r)
  | col_at => sql_of SqlText (Token.at_ r)
  | col_at_expires => sql_of SqlTimestamp (Token.at_expires r)
  | col_email => SqlText (Token.email r)
  | col_name => sql_of SqlText (Token.name r)
  | col_remark => sql_of SqlText (Token.remark r)
  | col_is_active => sql_of SqlBool (Token.is_active r)
  | col_created_at => sql_of SqlTimestamp (Token.created_at r)
  | col_last_used_at => sql_of SqlTimestamp (Token.last_used_at r)
  | col_use_count => sql_of SqlInt (Token.use_count r)
  | col_credits => sql_of SqlInt (Token.credits r)
  | col_user_paygate_tier => sql_of SqlText (Token.user_paygate_tier r)
  | col_current_project_id => sql_of SqlText (Token.current_project_id r)
  | col_current_project_name => sql_of SqlText (Token.current_project_name r)
  | col_image_enabled => sql_of SqlBool (Token.image_enabled r)
  | col_video_enabled => sql_of SqlBool (Token.video_enabled r)
  | col_image_concurrency => sql_of SqlInt (Token.image_concurrency r)
  | col_video_concurrency => sql_of SqlInt (Token.video_concurrency r)
  | col_ban_reason => sql_of SqlText (Token.ban_reason r)
  | col_banned_at => sql_of SqlTimestamp (Token.banned_at r)
  end.

(** How the driver encodes a query argument for a parameter of a given type;
    [None] is its refusal (raised as [DataError]).  An INTEGER parameter takes
    a Python int in range (a bool is an int); TEXT takes a str, BOOLEAN a
    bool, TIMESTAMP a naive datetime. *)
Definition encode (ty : sqltype) (v : pyval) : option sqlval :=
  match ty, v with
  | INTEGER, PyInt n => if int4_ok n then Some (SqlInt n) else None
  | INTEGER, PyBool b => Some (SqlInt (Z.b2z b))
  | TEXT, PyStr s => Some (SqlText s)
  | BOOLEAN, PyBool b => Some (SqlBool b)
  | TIMESTAMP, PyDatetime x =>
      match utcoffset x with
      | None => Some (SqlTimestamp x)
      | Some _ => None
      end
  | _, _ => None
  end.

Definition the_int (v : sqlval) : option Z :=
  match v with SqlInt n => Some n | _ => None end.

Definition the_text (v : sqlval) : option string :=
  match v with SqlText s => Some s | _ => None end.

Definition the_bool (v : sqlval) : option bool :=
  match v with SqlBool b => Some b | _ => None end.

Definition the_timestamp (v : sqlval) : option datetime :=
  match v with SqlTimestamp x => Some x | _ => None end.

(** SET c = v on one row.  [v] comes out of [encode (column_type c)], so it is
    never NULL and has the type of the column. *)
Definition assign (c : tokens_column) (v : sqlval) (r : Token.t) : Token.t :=
  let get (c' : tokens_column) : sqlval :=
    match c, c' with
    | col_id, col_id | col_st, col_st | col_at, col_at
    | col_at_expires, col_at_expires | col_email, col_email | col_name, col_name
    | col_remark, col_remark | col_is_active, col_is_active
    | col_created_at, col_created_at | col_last_used_at, col_last_used_at
    | col_use_count, col_use_count | col_credits, col_credits
    | col_user_paygate_tier, col_user_paygate_tier
    | col_current_project_id, col_current_project_id
    | col_current_project_name, col_current_project_name
    | col_image_enabled, col_image_enabled | col_video_enabled, col_video_enabled
    | col_image_concurrency, col_image_concurrency
    | col_video_concurrency, col_video_concurrency
    | col_ban_reason, col_ban_reason | col_banned_at, col_banned_at => v
    | _, _ => column_value c' r
    end in
  Token.mk
    (match the_int (get col_id) with Some n => n | None => Token.id r end)
    (match the_text (get col_st) with Some s => s | None => Token.st r end)
    (the_text (get col_at))
    (the_timestamp (get col_at_expires))
    (match the_text (get col_email) with Some s => s | None => Token.email r end)
    (the_text (get col_name))
    (the_text (get col_remark))
    (the_bool (get col_is_active))
    (the_timestamp (get col_created_at))
    (the_timestamp (get col_last_used_at))
    (the_int (get col_use_count))
    (the_int (get col_credits))
    (the_text (get col_user_paygate_tier))
    (the_text (get col_current_project_id))
    (the_text (get col_current_project_name))
    (the_bool (get col_image_enabled))
    (the_bool (get col_video_enabled))
    (the_int (get col_image_concurrency))
    (the_int (get col_video_concurrency))
    (the_text (get col_ban_reason))
    (the_timestamp (get col_banned_at)).

(** The year of the proleptic Gregorian calendar in which a day falls, the
    day counted from 1970-01-01. *)
Definition civil_year (days : Z) : Z :=
  let z := days + 719468 in
  let era := z / 146097 in
  let doe := z - era * 146097 in
  let yoe := (doe - doe / 1460 + doe / 36524 - doe / 146096) / 365 in
  let doy := doe - (365 * yoe + yoe / 4 - yoe / 100) in
  let mp := (5 * doy + 2) / 153 in
  yoe + era * 400 + (if 10 <=? mp then 1 else 0).

(** [localtime] of the C library, on a platform whose [time_t] has 64 bits:
    the wall-clock reading of the server's zone at an instant, in seconds,
    by the offset in force at that instant.  It fails when the year does not
    fit [tm_year], an [int] counted from 1900. *)
Definition localtime (clk : clock) (t : Z) : exn + Z :=
  let wall := t + local_utcoffset clk t in
  if int4_ok (civil_year (wall / 86400) - 1900) then inr wall
  else inl (Raised OSError "[Errno 75] Value too large for defined data type").

(** [utc_to_seconds] of the datetime module: it refuses a year outside
    1..9999.  The year is [tm_year + 1900] as an [int]. *)
Definition utc_to_seconds (wall : Z) : exn + Z :=
  let y := civil_year (wall / 86400) in
  let year := if 2147483647 <? y then y - 4294967296 else y in
  if (1 <=? year) && (year <=? 9999) then inr wall
  else inl (Raised ValueError ("year " ++ string_of_Z year ++ " is out of range")%string).

(** [local] of the datetime module: [localtime], then [utc_to_seconds]. *)
Definition local (clk : clock) (u : Z) : exn + Z :=
  match localtime clk u with
  | inr wall => utc_to_seconds wall
  | inl e => inl e
  end.

(** [datetime.fromtimestamp(value)] for an [int]: the naive local time.  The
    value has to fit [time_t]; the local reading, and the reading one day
    before it, which is probed to tell a repeated hour, have to fall in the
    years 1..9999; so has the reading at the second probe, made when the
    offset went down within that day. *)
Definition fromtimestamp (clk : clock) (seconds : Z) : exn + datetime :=
  if negb ((-9223372036854775808 <=? seconds) && (seconds <=? 9223372036854775807))
  then inl (Raised OverflowError "timestamp out of range for platform time_t")
  else
    match localtime clk seconds with
    | inl e => inl e
    | inr wall =>
        match utc_to_seconds wall with
        | inl e => inl e
        | inr result_seconds =>
            match local clk (seconds - 86400) with
            | inl e => inl e
            | inr probe_seconds =>
                let transition := result_seconds - probe_seconds - 86400 in
                let found := inr (mk_datetime (wall * 1000000) None) in
                if transition <? 0
                then match local clk (seconds + transition) with
                     | inl e => inl e
                     | inr _ => found
                     end
                else found
            end
        end
    end.

(** The two conversions applied to a value that is not [None]:
<<
    if isinstance(value, (int, float)) and key.endswith("_at"):
        value = datetime.fromtimestamp(value)
    if isinstance(value, datetime):
        value = self._normalize_dt(value)
>>
    ([bool] is a subclass of [int].) *)
Definition convert (clk : clock) (key : string) (value : pyval) : exn + pyval :=
  let stamped :=
    match value with
    | PyInt n =>
        if endswith key "_at"
        then match fromtimestamp clk n with
             | inr x => inr (PyDatetime x)
             | inl e => inl e
             end
        else inr value
    | PyBool b =>
        if endswith key "_at"
        then match fromtimestamp clk (Z.b2z b) with
             | inr x => inr (PyDatetime x)
             | inl e => inl e
             end
        else inr value
    | _ => inr value
    end in
  match stamped with
  | inr (PyDatetime x) => inr (PyDatetime (astimezone_utc_naive x))
  | other => other
  end.

(** The loop over [kwargs.items()]: the pairs (key, parameter) of the SET
    list, in order.  A [None] value contributes nothing. *)
Fixpoint build_updates (clk : clock) (kwargs : list (string * pyval))
  : exn + list (string * pyval) :=
  match kwargs with
  | [] => inr []
  | (key, value) :: kwargs' =>
      match value with
      | PyNone => build_updates clk kwargs'
      | _ =>
          match convert clk key value with
          | inl e => inl e
          | inr value' =>
              match build_updates clk kwargs' with
              | inl e => inl e
              | inr updates => inr ((key, value') :: updates)
              end
          end
      end
  end.

(** Parsing and binding the SET list: every key must name a column, every
    parameter must encode at the type of its column. *)
Fixpoint bind_updates (updates : list (string * pyval))
  : exn + list (tokens_column * sqlval) :=
  match updates with
  | [] => inr []
  | (key, value) :: updates' =>
      match dict_get key tokens_columns with
      | None => inl (Raised UndefinedColumnError key)
      | Some c =>
          match encode (column_type c) value with
          | None => inl (Raised DataError key)
          | Some v =>
              match bind_updates updates' with
              | inl e => inl e
              | inr sets => inr ((c, v) :: sets)
              end
          end
      end
  end.

Definition assign_all (sets : list (tokens_column * sqlval)) (r : Token.t) : Token.t :=
  fold_left (fun r' cv => assign (fst cv) (snd cv) r') sets r.

(** UPDATE tokens SET k1 = $1, ..., kn = $n WHERE id = $n+1.  The rows
    written must leave [id] a key, [st] unique and every REFERENCES
    tokens(id) resolved; the checks are made on the table that would result,
    which is what the server decides on a table that met them before. *)
Definition sql_update_tokens (updates : list (string * pyval)) (token_id : Z) : statement unit :=
  fun d =>
    match bind_updates updates with
    | inl e => (inl e, d)
    | inr sets =>
        if negb (int4_ok token_id) then violation DataError "invalid input for query argument" d
        else
          let rows := map (fun r => if Token.id r =? token_id then assign_all sets r else r)
                          (tokens d) in
          if negb (distinct Z.eqb (map Token.id rows))
          then violation UniqueViolationError "tokens_pkey" d
          else if negb (distinct String.eqb (map Token.st rows))
          then violation UniqueViolationError "tokens_st_key" d
          else if negb (references_resolve rows d)
          then violation ForeignKeyViolationError "tokens_id_fkey" d
          else (inr tt, with_tokens rows d)
    end.

Definition update_token (clk : clock) (token_id : Z) (kwargs : list (string * pyval)) : M unit :=
  match build_updates clk kwargs with
  | inl e => raise e
  | inr [] => ret tt
  | inr updates => conn_run (sql_update_tokens updates token_id)
  end.

(** ** [delete_token] *)

(** DELETE FROM token_stats WHERE token_id = $1 *)
Definition sql_delete_token_stats (token_id : Z) : statement unit :=
  int4_param token_id (fun d =>
    (inr tt,
     with_token_stats
       (filter (fun s => negb (TokenStats.token_id s =? token_id)) (token_stats d)) d)).

(** DELETE FROM projects WHERE token_id = $1 *)
Definition sql_delete_projects_of (token_id : Z) : statement unit :=
  int4_param token_id (fun d =>
    (inr tt,
     with_projects
       (filter (fun p => negb (Project.token_id p =? token_id)) (projects d)) d)).

(** DELETE FROM tokens WHERE id = $1.  No REFERENCES clause of [init_db]
    carries ON DELETE CASCADE: a credential that a row of [token_stats],
    [projects], [tasks] or [request_logs] still points to cannot go. *)
Definition sql_delete_token (token_id : Z) : statement unit :=
  int4_param token_id (fun d =>
    if has_token token_id (tokens d) && referenced token_id d
    then violation ForeignKeyViolationError "token_id_fkey" d
    else (inr tt,
          with_tokens (filter (fun r => negb (Token.id r =? token_id)) (tokens d)) d)).

Definition delete_token (token_id : Z) : M unit :=
  conn_run (sql_delete_token_stats token_id) ;;
  conn_run (sql_delete_projects_of token_id) ;;
  conn_run (sql_delete_token token_id).

(** ** [add_project], [delete_project], [create_task], [add_request_log],
       [clear_all_logs]: the other writers of rows that point to a
       credential *)

(** INSERT INTO projects (project_id, token_id, project_name, tool_name,
    is_active) VALUES (...) RETURNING id *)
Definition sql_insert_project (clk : clock) (project : Project.t) : statement Z :=
  fun d =>
    if negb (int4_ok (Project.token_id project))
    then violation DataError "invalid input for query argument" d
    else
      let new_id := projects_id_seq d in
      let d' := nextval_projects d in
      let row :=
        Project.mk new_id (Project.project_id project) (Project.token_id project)
                   (Project.project_name project) (Project.tool_name project)
                   (Project.is_active project) (Some (current_timestamp clk)) in
      if negb (int4_ok new_id) then violation NumericValueOutOfRangeError "projects_id_seq" d
      else if existsb (fun p => Project.id p =? new_id) (projects d)
      then violation UniqueViolationError "projects_pkey" d'
      else if existsb (fun p => (Project.project_id p =? Project.project_id project)%string)
                      (projects d)
      then violation UniqueViolationError "projects_project_id_key" d'
      else if negb (has_token (Project.token_id project) (tokens d))
      then violation ForeignKeyViolationError "projects_token_id_fkey" d'
      else (inr new_id, with_projects (projects d ++ [row]) d').

Definition add_project (clk : clock) (project : Project.t) : M Z :=
  conn_run (sql_insert_project clk project).

(** DELETE FROM projects WHERE project_id = $1 *)
Definition sql_delete_project (project_id : string) : statement unit :=
  fun d =>
    (inr tt,
     with_projects
       (filter (fun p => negb (Project.project_id p =? project_id)%string) (projects d)) d).

Definition delete_project (project_id : string) : M unit :=
  conn_run (sql_delete_project project_id).

(** INSERT INTO tasks (task_id, token_id, model, prompt, status, progress,
    scene_id) VALUES (...) RETURNING id *)
Definition sql_insert_task (clk : clock) (task : Task.t) : statement Z :=
  fun d =>
    if negb (int4_ok (Task.token_id task) && opt_int4_ok (Task.progress task))
    then violation DataError "invalid input for query argument" d
    else
      let new_id := tasks_id_seq d in
      let d' := nextval_tasks d in
      let row :=
        Task.mk new_id (Task.task_id task) (Task.token_id task) (Task.model task)
                (Task.prompt task) (Task.status task) (Task.progress task)
                (Task.scene_id task) (Some (current_timestamp clk)) in
      if negb (int4_ok new_id) then violation NumericValueOutOfRangeError "tasks_id_seq" d
      else if existsb (fun t => Task.id t =? new_id) (tasks d)
      then violation UniqueViolationError "tasks_pkey" d'
      else if existsb (fun t => (Task.task_id t =? Task.task_id task)%string) (tasks d)
      then violation UniqueViolationError "tasks_task_id_key" d'
      else if negb (has_token (Task.token_id task) (tokens d))
      then violation ForeignKeyViolationError "tasks_token_id_fkey" d'
      else (inr new_id, with_tasks (tasks d ++ [row]) d').

Definition create_task (clk : clock) (task : Task.t) : M Z :=
  conn_run (sql_insert_task clk task).

(** INSERT INTO request_logs (token_id, operation, request_body,
    response_body, status_code, duration) VALUES (...) *)
Definition sql_insert_request_log (clk : clock) (log : RequestLog.t) : statement unit :=
  fun d =>
    if negb (opt_int4_ok (RequestLog.token_id log) && int4_ok (RequestLog.status_code log))
    then violation DataError "invalid input for query argument" d
    else
      let new_id := request_logs_id_seq d in
      let d' := nextval_request_logs d in
      let row :=
        RequestLog.mk new_id (RequestLog.token_id log) (RequestLog.operation log)
                      (RequestLog.status_code log) (Some (current_timestamp clk)) in
      if negb (int4_ok new_id)
      then violation NumericValueOutOfRangeError "request_logs_id_seq" d
      else if existsb (fun l => RequestLog.id l =? new_id) (request_logs d)
      then violation UniqueViolationError "request_logs_pkey" d'
      else if negb (match RequestLog.token_id log with
                    | Some i => has_token i (tokens d)
                    | None => true
                    end)
      then violation ForeignKeyViolationError "request_logs_token_id_fkey" d'
      else (inr tt, with_request_logs (request_logs d ++ [row]) d').

Definition add_request_log (clk : clock) (log : RequestLog.t) : M unit :=
  conn_run (sql_insert_request_log clk log).

(** DELETE FROM request_logs *)
Definition clear_all_logs : M unit :=
  conn_run (fun d => (inr tt, with_request_logs [] d)).

(** ** The counters of [token_stats] *)

(** SELECT today_date FROM token_stats WHERE token_id = $1, through
    [fetchrow]: the first row found, or [None]. *)
Definition sql_select_today_date (token_id : Z) : statement (option (option date)) :=
  int4_param token_id
    (query (fun d =>
              option_map TokenStats.today_date
                (find (fun s => TokenStats.token_id s =? token_id) (token_stats d)))).

(** UPDATE token_stats SET ... WHERE token_id = $n: [set] gives the row
    written, [written] the INTEGER values the SET list computes, each of
    which has to fit the column. *)
Definition sql_update_token_stats (token_id : Z)
    (set : TokenStats.t -> TokenStats.t) (written : TokenStats.t -> list Z)
  : statement unit :=
  int4_param token_id (fun d =>
    let hit (s : TokenStats.t) := TokenStats.token_id s =? token_id in
    if forallb (fun s => negb (hit s) || forallb int4_ok (written (set s))) (token_stats d)
    then (inr tt, with_token_stats (map (fun s => if hit s then set s else s) (token_stats d)) d)
    else violation NumericValueOutOfRangeError "integer out of range" d).

(** The test of the three increments:
    [row and row["today_date"] is not None and row["today_date"] != today] *)
Definition rolled_over (clk : clock) (row : option (option date)) : bool :=
  match row with
  | Some (Some day) => negb (day =? today clk)
  | _ => false
  end.

(** SET image_count = image_count + 1, today_image_count = 1, today_date = $1 *)
Definition set_image_new_day (clk : clock) (s : TokenStats.t) : TokenStats.t :=
  TokenStats.mk (TokenStats.id s) (TokenStats.token_id s)
    (TokenStats.image_count s + 1) (TokenStats.video_count s)
    (TokenStats.success_count s) (TokenStats.error_count s)
    (TokenStats.last_success_at s) (TokenStats.last_error_at s)
    1 (TokenStats.today_video_count s) (TokenStats.today_error_count s)
    (Some (today clk)) (TokenStats.consecutive_error_count s).

(** SET image_count = image_count + 1,
        today_image_count = today_image_count + 1, today_date = $1 *)
Definition set_image_same_day (clk : clock) (s : TokenStats.t) : TokenStats.t :=
  TokenStats.mk (TokenStats.id s) (TokenStats.token_id s)
    (TokenStats.image_count s + 1) (TokenStats.video_count s)
    (TokenStats.success_count s) (TokenStats.error_count s)
    (TokenStats.last_success_at s) (TokenStats.last_error_at s)
    (TokenStats.today_image_count s + 1) (TokenStats.today_video_count s)
    (TokenStats.today_error_count s)
    (Some (today clk)) (TokenStats.consecutive_error_count s).

Definition written_image (s : TokenStats.t) : list Z :=
  [TokenStats.image_count s; TokenStats.today_image_count s].

Definition increment_image_count (clk : clock) (token_id : Z) : M unit :=
  row <- conn_run (sql_select_today_date token_id) ;;
  if rolled_over clk row
  then conn_run (sql_update_token_stats token_id (set_image_new_day clk) written_image)
  else conn_run (sql_update_token_stats token_id (set_image_same_day clk) written_image).

(** SET video_count = video_count + 1, today_video_count = 1, today_date = $1 *)
Definition set_video_new_day (clk : clock) (s : TokenStats.t) : TokenStats.t :=
  TokenStats.mk (TokenStats.id s) (TokenStats.token_id s)
    (TokenStats.image_count s) (TokenStats.video_count s + 1)
    (TokenStats.success_count s) (TokenStats.error_count s)
    (TokenStats.last_success_at s) (TokenStats.last_error_at s)
    (TokenStats.today_image_count s) 1 (TokenStats.today_error_count s)
    (Some (today clk)) (TokenStats.consecutive_error_count s).

(** SET video_count = video_count + 1,
        today_video_count = today_video_count + 1, today_date = $1 *)
Definition set_video_same_day (clk : clock) (s : TokenStats.t) : TokenStats.t :=
  TokenStats.mk (TokenStats.id s) (TokenStats.token_id s)
    (TokenStats.image_count s) (TokenStats.video_count s + 1)
    (TokenStats.success_count s) (TokenStats.error_count s)
    (TokenStats.last_success_at s) (TokenStats.last_error_at s)
    (TokenStats.today_image_count s) (TokenStats.today_video_count s + 1)
    (TokenStats.today_error_count s)
    (Some (today clk)) (TokenStats.consecutive_error_count s).

Definition written_video (s : TokenStats.t) : list Z :=
  [TokenStats.video_count s; TokenStats.today_video_count s].

Definition increment_video_count (clk : clock) (token_id : Z) : M unit :=
  row <- conn_run (sql_select_today_date token_id) ;;
  if rolled_over clk row
  then conn_run (sql_update_token_stats token_id (set_video_new_day clk) written_video)
  else conn_run (sql_update_token_stats token_id (set_video_same_day clk) written_video).

(** SET error_count = error_count + 1,
        consecutive_error_count = consecutive_error_count + 1,
        today_error_count = 1, today_date = $1,
        last_error_at = CURRENT_TIMESTAMP *)
Definition set_error_new_day (clk : clock) (s : TokenStats.t) : TokenStats.t :=
  TokenStats.mk (TokenStats.id s) (TokenStats.token_id s)
    (TokenStats.image_count s) (TokenStats.video_count s)
    (TokenStats.success_count s) (TokenStats.error_count s + 1)
    (TokenStats.last_success_at s) (Some (current_timestamp clk))
    (TokenStats.today_image_count s) (TokenStats.today_video_count s) 1
    (Some (today clk)) (TokenStats.consecutive_error_count s + 1).

(** SET error_count = error_count + 1,
        consecutive_error_count = consecutive_error_count + 1,
        today_error_count = today_error_count + 1, today_date = $1,
        last_error_at = CURRENT_TIMESTAMP *)
Definition set_error_same_day (clk : clock) (s : TokenStats.t) : TokenStats.t :=
  TokenStats.mk (TokenStats.id s) (TokenStats.token_id s)
    (TokenStats.image_count s) (TokenStats.video_count s)
    (TokenStats.success_count s) (TokenStats.error_count s + 1)
    (TokenStats.last_success_at s) (Some (current_timestamp clk))
    (TokenStats.today_image_count s) (TokenStats.today_video_count s)
    (TokenStats.today_error_count s + 1)
    (Some (today clk)) (TokenStats.consecutive_error_count s + 1).

Definition written_error (s : TokenStats.t) : list Z :=
  [TokenStats.error_count s; TokenStats.consecutive_error_count s;
   TokenStats.today_error_count s].

Definition increment_error_count (clk : clock) (token_id : Z) : M unit :=
  row <- conn_run (sql_select_today_date token_id) ;;
  if rolled_over clk row
  then conn_run (sql_update_token_stats token_id (set_error_new_day clk) written_error)
  else conn_run (sql_update_token_stats token_id (set_error_same_day clk) written_error).

Definition increment_token_stats (clk : clock) (token_id : Z) (stat_type : string) : M unit :=
  if (stat_type =? "image")%string then increment_image_count clk token_id
  else if (stat_type =? "video")%string then increment_video_count clk token_id
  else if (stat_type =? "error")%string then increment_error_count clk token_id
  else ret tt.

(** UPDATE token_stats SET consecutive_error_count = 0 WHERE token_id = $1 *)
Definition set_no_consecutive_error (s : TokenStats.t) : TokenStats.t :=
  TokenStats.mk (TokenStats.id s) (TokenStats.token_id s)
    (TokenStats.image_count s) (TokenStats.video_count s)
    (TokenStats.success_count s) (TokenStats.error_count s)
    (TokenStats.last_success_at s) (TokenStats.last_error_at s)
    (TokenStats.today_image_count s) (TokenStats.today_video_count s)
    (TokenStats.today_error_count s)
    (TokenStats.today_date s) 0.

Definition reset_error_count (token_id : Z) : M unit :=
  conn_run (sql_update_token_stats token_id set_no_consecutive_error (fun _ => [])).

(** The shape the three increments share: read the day of the row, then
    one of two UPDATEs. *)
Definition increment_shape (clk : clock) (token_id : Z)
    (set_new_day set_same_day : TokenStats.t -> TokenStats.t)
    (written : TokenStats.t -> list Z) : M unit :=
  row <- conn_run (sql_select_today_date token_id) ;;
  if rolled_over clk row
  then conn_run (sql_update_token_stats token_id set_new_day written)
  else conn_run (sql_update_token_stats token_id set_same_day written).

(** ** Reading the counters *)

(** The three kinds of [increment_token_stats]. *)
Inductive counter := image | video | error.

Definition stat_type (k : counter) : string :=
  match k with
  | image => "image"
  | video => "video"
  | error => "error"
  end.





(** The row of a credential in [token_stats], as [fetchrow] finds it. *)
Definition stats_row (token_id : Z) (d : db) : option TokenStats.t :=
  find (fun s => TokenStats.token_id s =? token_id) (token_stats d).


(** A coroutine keeps a relation between the database it finds and the
    database it leaves, whether it returns or raises. *)
Definition keeps {A : Type} (R : db -> db -> Prop) (c : M A) : Prop :=
  forall w, R (store w) (store (snd (c w))).

(** The same for one statement. *)
Definition statement_keeps {A : Type} (R : db -> db -> Prop) (s : statement A) : Prop :=
  forall d, R d (snd (s d)).


(** No two rows of [tokens] hold the same session secret. *)
Definition st_unique (d : db) : Prop := NoDup (map Token.st (tokens d)).

Definition st_unique_kept (d d' : db) : Prop := st_unique d -> st_unique d'.

(** ** The states the store can be in *)

(** One call of a method that writes to the five tables. *)
Inductive call :=
| call_add_token (token : Token.t)
| call_update_token (token_id : Z) (kwargs : list (string * pyval))
| call_delete_token (token_id : Z)
| call_add_project (project : Project.t)
| call_delete_project (project_id : string)
| call_create_task (task : Task.t)
| call_add_request_log (log : RequestLog.t)
| call_clear_all_logs
| call_increment_token_stats (token_id : Z) (stat_type : string)
| call_reset_error_count (token_id : Z).

Definition run (clk : clock) (c : call) : M unit :=
  match c with
  | call_add_token token => add_token clk token ;; ret tt
  | call_update_token token_id kwargs => update_token clk token_id kwargs
  | call_delete_token token_id => delete_token token_id
  | call_add_project project => add_project clk project ;; ret tt
  | call_delete_project project_id => delete_project project_id
  | call_create_task task => create_task clk task ;; ret tt
  | call_add_request_log log => add_request_log clk log
  | call_clear_all_logs => clear_all_logs
  | call_increment_token_stats token_id stat_type =>
      increment_token_stats clk token_id stat_type
  | call_reset_error_count token_id => reset_error_count token_id
  end.

(** The database is reachable: it is what [init_db] created, or what a call
    left behind, whether it returned or raised, under any clock and any
    fate of its statements. *)
Inductive reachable : db -> Prop :=
| reachable_init : reachable init_db
| reachable_call (d : db) (clk : clock) (c : call) (fs : list bool) (out : list string) :
    reachable d ->
    reachable (store (snd (run clk c (mk_world d fs out)))).

End PostgresDatabase.

(* ===================================================================== *)
(** * Collaborators of the endpoints *)
(* ===================================================================== *)

(** [config]: the two settings read by the code embedded here. *)
Module Config.
Record t := mk {
  captcha_method : string;
  debug_enabled : bool
}.
End Config.

(** [token_manager], of [src/services/token_manager.py], and its
    [flow_client]: the endpoints call them and nothing here depends on how
    they are written, so they are taken as given coroutines.
    [st_to_at] returns a dict; [update_token] is called with keyword
    arguments only. *)
Module TokenManager.
Record t := mk {
  flow_client_st_to_at : string -> M (list (string * pyval));
  update_token : list (string * pyval) -> M unit;
  _refresh_at : Z -> M pyval;
  get_token : Z -> M (option Token.t)
}.
End TokenManager.

(** The methods of [datetime] used by the endpoints, with
    [_format_timestamp] of the logger ([datetime.now()] rendered). *)
Module Datetime.
Record t := mk {
  fromisoformat : string -> exn + datetime;
  isoformat : datetime -> string;
  _format_timestamp : string
}.
End Datetime.

(* ===================================================================== *)
(** * [src/core/logger.py]: [debug_logger] *)
(* ===================================================================== *)

Module DebugLogger.

Fixpoint repeat_string (s : string) (n : nat) : string :=
  match n with
  | O => ""
  | S n' => (s ++ repeat_string s n')%string
  end.

Definition _write_separator (char : string) : M unit :=
  print (repeat_string char 80).

(** [log_info]: silent unless debugging; the copy handed to [_save_to_db]
    is written later, by a task of its own, into [debug_logs]. *)
Definition log_info (cfg : Config.t) (dt : Datetime.t) (message : string) : M unit :=
  if negb (Config.debug_enabled cfg) then ret tt
  else print ("ℹ️  [" ++ Datetime._format_timestamp dt ++ "] " ++ message)%string.

(** [log_error(error_message)], with neither status code nor response text. *)
Definition log_error (cfg : Config.t) (dt : Datetime.t) (error_message : string) : M unit :=
  (print ("🔴 [ERROR] " ++ error_message)%string ;;
   if negb (Config.debug_enabled cfg) then ret tt
   else
     _write_separator "=" ;;
     print ("🔴 [ERROR] " ++ Datetime._format_timestamp dt)%string ;;
     _write_separator "-" ;;
     print ("  Error Message: " ++ error_message)%string ;;
     _write_separator "=")%coroutine.

End DebugLogger.

(* ===================================================================== *)
(** * [src/api/admin.py] *)
(* ===================================================================== *)

Module admin.

Record UpdateTokenRequest := mk_UpdateTokenRequest {
  st : string;
  project_id : option string;
  project_name : option string;
  remark : option string;
  image_enabled : option bool;
  video_enabled : option bool;
  image_concurrency : option Z;
  video_concurrency : option Z
}.

(** The [token] object of the answer of [refresh_at]. *)
Record token_info := mk_token_info {
  info_id : Z;
  info_email : string;
  info_at_expires : option string
}.

(** The JSON object an endpoint returns. *)
Record response := mk_response {
  success : bool;
  message : string;
  token : option token_info
}.

Definition py_of {A : Type} (inj : A -> pyval) (o : option A) : pyval :=
  match o with
  | Some a => inj a
  | None => PyNone
  end.

(** [result["access_token"]] *)
Definition subscript (d : list (string * pyval)) (key : string) : M pyval :=
  match dict_get key d with
  | Some v => ret v
  | None => raise (Raised KeyError ("'" ++ key ++ "'"))
  end.

(** [s.replace('Z', '+00:00')] *)
Fixpoint replace_Z (s : string) : string :=
  match s with
  | EmptyString => EmptyString
  | String c s' =>
      if Ascii.eqb c "Z"%char then ("+00:00" ++ replace_Z s')%string
      else String c (replace_Z s')
  end.

(** The expiry of the access token:
<<
    at_expires = None
    if expires:
        try:
            at_expires = datetime.fromisoformat(expires.replace('Z', '+00:00'))
        except:
            pass
>>
    A value that is not a str has no [replace] to offer a 'Z'; that raises
    inside the [try] as well. *)
Definition parse_expires (dt : Datetime.t) (expires : pyval) : pyval :=
  if truthy expires
  then match expires with
       | PyStr s =>
           match Datetime.fromisoformat dt (replace_Z s) with
           | inr x => PyDatetime x
           | inl _ => PyNone
           end
       | _ => PyNone
       end
  else PyNone.

(** PUT /api/tokens/{token_id} *)
Definition update_token (tm : TokenManager.t) (dt : Datetime.t)
    (token_id : Z) (request : UpdateTokenRequest) : M response :=
  try_except
    (result <- TokenManager.flow_client_st_to_at tm (st request) ;;
     at_ <- subscript result "access_token" ;;
     let expires := match dict_get "expires" result with
                    | Some v => v
                    | None => PyNone
                    end in
     let at_expires := parse_expires dt expires in
     TokenManager.update_token tm
       [ ("token_id", PyInt token_id);
         ("st", PyStr (st request));
         ("at", at_);
         ("at_expires", at_expires);
         ("project_id", py_of PyStr (project_id request));
         ("project_name", py_of PyStr (project_name request));
         ("remark", py_of PyStr (remark request));
         ("image_enabled", py_of PyBool (image_enabled request));
         ("video_enabled", py_of PyBool (video_enabled request));
         ("image_concurrency", py_of PyInt (image_concurrency request));
         ("video_concurrency", py_of PyInt (video_concurrency request)) ] ;;
     ret (mk_response true "Token更新成功" None))
    is_Exception
    (fun e => raise (HTTPException 500 (str e))).

(** The first line of [refresh_at], before its [try]. *)
Definition log_refresh_request (cfg : Config.t) (dt : Datetime.t) (token_id : Z) : M unit :=
  DebugLogger.log_info cfg dt
    ("[API] 手动刷新 AT 请求: token_id=" ++ string_of_Z token_id
     ++ ", captcha_method=" ++ Config.captcha_method cfg)%string.

(** POST /api/tokens/{token_id}/refresh-at.  Its two [except] clauses are
    tried in order: an [HTTPException] is raised again as it is, any other
    [Exception] is logged and wrapped. *)
Definition refresh_at (cfg : Config.t) (tm : TokenManager.t) (dt : Datetime.t)
    (token_id : Z) : M response :=
  log_refresh_request cfg dt token_id ;;
  try_except
    (success <- TokenManager._refresh_at tm token_id ;;
     if truthy success
     then
       updated_token <- TokenManager.get_token tm token_id ;;
       let message :=
         if (Config.captcha_method cfg =? "personal")%string
         then "AT刷新成功（支持ST自动刷新）"
         else "AT刷新成功" in
       DebugLogger.log_info cfg dt
         ("[API] AT 刷新成功: token_id=" ++ string_of_Z token_id)%string ;;
       match updated_token with
       | None => raise (Raised AttributeError "'NoneType' object has no attribute 'id'")
       | Some t =>
           ret (mk_response true message
                  (Some (mk_token_info (Token.id t) (Token.email t)
                           (option_map (Datetime.isoformat dt) (Token.at_expires t)))))
       end
     else
       DebugLogger.log_error cfg dt
         ("[API] AT 刷新失败: token_id=" ++ string_of_Z token_id)%string ;;
       let error_detail :=
         if negb (Config.captcha_method cfg =? "personal")%string
         then ("AT刷新失败（当前打码模式: " ++ Config.captcha_method cfg
               ++ "，ST自动刷新仅在 personal 模式下可用）")%string
         else "AT刷新失败" in
       raise (HTTPException 500 error_detail))
    is_Exception
    (fun e =>
       if is_HTTPException e then raise e
       else
         DebugLogger.log_error cfg dt ("[API] 刷新AT异常: " ++ str e)%string ;;
         raise (HTTPException 500 ("刷新AT失败: " ++ str e)%string)).

End admin.

(* ===================================================================== *)
(** * [src/main.py] *)
(* ===================================================================== *)

Module main.

(** What an [await] hands back to the coroutine that is resumed from it. *)
Inductive outcome :=
| returns
| raises (e : exn).

(** What the task can be seen to do. *)
Inductive event :=
| sleep (seconds : Z)            (* await asyncio.sleep(seconds) *)
| auto_unban_429_tokens          (* await token_manager.auto_unban_429_tokens() *)
| printed (line : string).

(** Where a task stands: suspended in an [await], or over, by the exception
    that left its coroutine.  The coroutine of [auto_unban_task] has no
    [return] and no [break]. *)
Inductive status :=
| pending
| ended (e : exn).

(** [auto_unban_task], resumed with the outcomes of its successive awaits:
<<
    while True:
        try:
            await asyncio.sleep(3600)
            await token_manager.auto_unban_429_tokens()
        except Exception as e:
            print(f"... Auto-unban task error: {e}")
>>
    The result is what the task did and where it stands once the outcomes
    given are used up. *)
Fixpoint auto_unban_task (awaits : list outcome) : list event * status :=
  match awaits with
  | [] => ([sleep 3600], pending)
  | raises e :: rest =>
      if is_Exception e
      then let (trace, s) := auto_unban_task rest in
           (sleep 3600 :: printed ("❌ Auto-unban task error: " ++ str e)%string :: trace, s)
      else ([sleep 3600], ended e)
  | returns :: [] => ([sleep 3600; auto_unban_429_tokens], pending)
  | returns :: raises e :: rest =>
      if is_Exception e
      then let (trace, s) := auto_unban_task rest in
           (sleep 3600 :: auto_unban_429_tokens
              :: printed ("❌ Auto-unban task error: " ++ str e)%string :: trace, s)
      else ([sleep 3600; auto_unban_429_tokens], ended e)
  | returns :: returns :: rest =>
      let (trace, s) := auto_unban_task rest in
      (sleep 3600 :: auto_unban_429_tokens :: trace, s)
  end.

(** An [asyncio.Task] running [auto_unban_task]: the outcomes its coroutine
    has been resumed with.  [asyncio.create_task(auto_unban_task())] starts
    one with none. *)
Definition Task := list outcome.

Definition create_task : Task := [].

Definition done (t : Task) : bool :=
  match snd (auto_unban_task t) with
  | pending => false
  | ended _ => true
  end.

(** [Task.cancel()]: a task that is not done has [CancelledError] thrown
    into its coroutine at the await it is suspended in. *)
Definition cancel (t : Task) : Task :=
  if done t then t else t ++ [raises (Raised CancelledError "")].

(** How a piece of [lifespan] leaves. *)
Inductive exit :=
| completed
| raised (e : exn)
| blocked.            (* awaits a task that never ends *)

Definition is_CancelledError (e : exn) : bool :=
  match e with
  | Raised CancelledError _ => true
  | _ => false
  end.

(** The part of [lifespan] after its [yield], up to the end of the handling
    of the auto-unban task:
<<
    await generation_handler.file_cache.stop_cleanup_task()
    auto_unban_task_handle.cancel()
    try:
        await auto_unban_task_handle
    except asyncio.CancelledError:
        pass
>>
    [stop_cleanup_task] belongs to a module outside this development and is
    seen by its outcome. *)
Definition shutdown (stop_cleanup_task : outcome) (auto_unban_task_handle : Task)
  : exit * Task :=
  match stop_cleanup_task with
  | raises e => (raised e, auto_unban_task_handle)
  | returns =>
      let handle := cancel auto_unban_task_handle in
      match snd (auto_unban_task handle) with
      | pending => (blocked, handle)
      | ended e => if is_CancelledError e then (completed, handle) else (raised e, handle)
      end
  end.

(** The outcomes of [n] rounds in which every sleep runs to its end and the
    sweeps end as [sweeps] says. *)
Definition hours (sweeps : list outcome) : list outcome :=
  flat_map (fun o => [returns; o]) sweeps.

(** No outcome is an exception outside [Exception]. *)
Definition no_base_exception (o : outcome) : bool :=
  match o with
  | returns => true
  | raises e => is_Exception e
  end.

(** Every [auto_unban_429_tokens] of a trace comes right after a
    [sleep 3600], and no other sleep occurs. *)
Fixpoint hourly (trace : list event) : bool :=
  match trace with
  | [] => true
  | sleep s :: auto_unban_429_tokens :: trace' => (s =? 3600) && hourly trace'
  | sleep s :: trace' => (s =? 3600) && hourly trace'
  | auto_unban_429_tokens :: _ => false
  | printed _ :: trace' => hourly trace'
  end.

(** How many times a trace calls the sweep. *)
Fixpoint sweeps_in (trace : list event) : nat :=
  match trace with
  | [] => O
  | auto_unban_429_tokens :: trace' => S (sweeps_in trace')
  | _ :: trace' => sweeps_in trace'
  end.

End main.

(* ===================================================================== *)
(** * Integrity of the store *)
(* ===================================================================== *)

Module Integrity.

(** [id] is a key of [tokens]. *)
Definition ids_unique (d : db) : Prop := NoDup (map Token.id (tokens d)).

(** Every REFERENCES tokens(id) of the four other tables resolves. *)
Definition references_hold (d : db) : Prop :=
  PostgresDatabase.references_resolve (tokens d) d = true.

(** No credential has two rows in [token_stats], and every row there points
    to an id the sequence of [tokens] has already handed out. *)
Definition one_stats_row (d : db) : Prop :=
  NoDup (map TokenStats.token_id (token_stats d))
  /\ Forall (fun s => TokenStats.token_id s < tokens_id_seq d) (token_stats d).

Definition ids_unique_kept (d d' : db) : Prop := ids_unique d -> ids_unique d'.

Definition references_kept (d d' : db) : Prop := references_hold d -> references_hold d'.

Definition one_stats_row_kept (d d' : db) : Prop := one_stats_row d -> one_stats_row d'.

End Integrity.

(* ===================================================================== *)
(** * The names of the columns of [tokens] *)
(* ===================================================================== *)

Module Columns.

Import PostgresDatabase.


End Columns.

(* ===================================================================== *)
(** * [src/api/admin.py]: the sessions of the administrator *)
(* ===================================================================== *)

(** A row of [admin_config], as the model [AdminConfig] carries it. *)
Module AdminConfig.
Record t := mk {
  username : string;
  password : string;
  api_key : string;
  error_ban_threshold : Z
}.
End AdminConfig.

(** What the session endpoints ask of the rest of the program: three methods
    of the database on the table [admin_config], which is not among the
    tables embedded above, and [AuthManager.verify_admin] of
    [src/core/auth.py].  They are taken as given. *)
Module AdminStore.
Record t := mk {
  get_admin_config : M (option AdminConfig.t);
  update_admin_config : list (string * pyval) -> M unit;
  reload_config_to_memory : M unit;
  verify_admin : string -> string -> bool
}.
End AdminStore.

Module admin_sessions.

(** [active_admin_tokens], a Python [set] of [str]: an element is in it or
    not, and that is all the code asks. *)
Definition session_set := list string.

(** [token in active_admin_tokens] *)
Definition contains (active : session_set) (token : string) : bool :=
  existsb (String.eqb token) active.

(** [active_admin_tokens.add(token)] *)
Definition add (token : string) (active : session_set) : session_set :=
  if contains active token then active else token :: active.

(** [active_admin_tokens.discard(token)] *)
Definition discard (token : string) (active : session_set) : session_set :=
  filter (fun t => negb (t =? token)%string) active.

(** [verify_admin_token]:
<<
    if not authorization or not authorization.startswith("Bearer "):
        raise HTTPException(status_code=401, detail="Missing authorization")
    token = authorization[7:]
    if token not in active_admin_tokens:
        raise HTTPException(status_code=401, detail="Invalid or expired admin token")
    return token
>>
    The header is absent ([None]) or a str. *)
Definition verify_admin_token (active : session_set) (authorization : option string)
  : exn + string :=
  match authorization with
  | None => inl (HTTPException 401 "Missing authorization")
  | Some header =>
      if (header =? "")%string || negb (String.prefix "Bearer " header)
      then inl (HTTPException 401 "Missing authorization")
      else
        let token := String.substring 7 (String.length header - 7) header in
        if contains active token then inr token
        else inl (HTTPException 401 "Invalid or expired admin token")
  end.

Record LoginRequest := mk_LoginRequest {
  username : string;
  password : string
}.

Record ChangePasswordRequest := mk_ChangePasswordRequest {
  new_username : option string;     (* the field [username] *)
  old_password : string;
  new_password : string
}.

(** The answer of [admin_login]. *)
Record login_response := mk_login_response {
  login_success : bool;
  login_token : string;
  login_username : string
}.

(** An endpoint that works on the set of sessions: what it answers, the set
    it leaves, and the world it leaves. *)
Definition endpoint (A : Type) : Type :=
  session_set -> world -> (exn + A) * session_set * world.

(** POST /api/admin/login.  [urlsafe] is what [secrets.token_urlsafe(32)]
    returns. *)
Definition admin_login (store : AdminStore.t) (urlsafe : string) (request : LoginRequest)
  : endpoint login_response :=
  fun active w =>
    match AdminStore.get_admin_config store w with
    | (inl e, w1) => (inl e, active, w1)
    | (inr admin_config, w1) =>
        if negb (AdminStore.verify_admin store (username request) (password request))
        then (inl (HTTPException 401 "Invalid credentials"), active, w1)
        else
          let session_token := ("admin-" ++ urlsafe)%string in
          let active' := add session_token active in
          match admin_config with
          | None =>
              (inl (Raised AttributeError "'NoneType' object has no attribute 'username'"),
               active', w1)
          | Some cfg =>
              (inr (mk_login_response true session_token (AdminConfig.username cfg)),
               active', w1)
          end
    end.

(** POST /api/admin/logout, behind [Depends(verify_admin_token)]. *)
Definition admin_logout (authorization : option string) : endpoint (bool * string) :=
  fun active w =>
    match verify_admin_token active authorization with
    | inl e => (inl e, active, w)
    | inr token => (inr (true, "退出登录成功"), discard token active, w)
    end.

(** POST /api/admin/change-password, behind [Depends(verify_admin_token)]. *)
Definition change_password (store : AdminStore.t) (authorization : option string)
    (request : ChangePasswordRequest) : endpoint (bool * string) :=
  fun active w =>
    match verify_admin_token active authorization with
    | inl e => (inl e, active, w)
    | inr _ =>
        match AdminStore.get_admin_config store w with
        | (inl e, w1) => (inl e, active, w1)
        | (inr None, w1) =>
            (inl (Raised AttributeError "'NoneType' object has no attribute 'username'"),
             active, w1)
        | (inr (Some admin_config), w1) =>
            if negb (AdminStore.verify_admin store (AdminConfig.username admin_config)
                       (old_password request))
            then (inl (HTTPException 400 "旧密码错误"), active, w1)
            else
              let update_params :=
                ("password", PyStr (new_password request))
                  :: match new_username request with
                     | Some u => if (u =? "")%string then [] else [("username", PyStr u)]
                     | None => []
                     end in
              match AdminStore.update_admin_config store update_params w1 with
              | (inl e, w2) => (inl e, active, w2)
              | (inr _, w2) =>
                  match AdminStore.reload_config_to_memory store w2 with
                  | (inl e, w3) => (inl e, active, w3)
                  | (inr _, w3) => (inr (true, "密码修改成功,请重新登录"), [], w3)
                  end
              end
        end
    end.

End admin_sessions.

(* ===================================================================== *)
(** * The counters of a row of [token_stats] against each other *)
(* ===================================================================== *)

Module Counters.

(** The figures of the day are within the figures of all time, and the run
    of consecutive errors is within the errors of all time. *)
Definition within_totals (s : TokenStats.t) : bool :=
  (0 <=? TokenStats.today_image_count s)
  && (TokenStats.today_image_count s <=? TokenStats.image_count s)
  && (0 <=? TokenStats.today_video_count s)
  && (TokenStats.today_video_count s <=? TokenStats.video_count s)
  && (0 <=? TokenStats.today_error_count s)
  && (TokenStats.today_error_count s <=? TokenStats.error_count s)
  && (0 <=? TokenStats.consecutive_error_count s)
  && (TokenStats.consecutive_error_count s <=? TokenStats.error_count s).

Definition counters_ordered (d : db) : bool :=
  forallb within_totals (token_stats d).

Definition counters_ordered_kept (d d' : db) : Prop :=
  counters_ordered d = true -> counters_ordered d' = true.

End Counters.

(* ===================================================================== *)
(** * [src/api/admin.py]: the dashboard *)
(* ===================================================================== *)

Module admin_dashboard.

(** The JSON object of GET /api/stats. *)
Record stats := mk_stats {
  total_tokens : Z;
  active_tokens : Z;
  total_images : Z;
  total_videos : Z;
  total_errors : Z;
  today_images : Z;
  today_videos : Z;
  today_errors : Z
}.

(** The six running sums of the loop, in the order the code declares them. *)
Record sums := mk_sums {
  sum_images : Z;
  sum_videos : Z;
  sum_errors : Z;
  sum_today_images : Z;
  sum_today_videos : Z;
  sum_today_errors : Z
}.

(** [if stats:] and the six [+=] under it. *)
Definition add_stats (acc : sums) (row : option TokenStats.t) : sums :=
  match row with
  | Some s =>
      mk_sums (sum_images acc + TokenStats.image_count s)
              (sum_videos acc + TokenStats.video_count s)
              (sum_errors acc + TokenStats.error_count s)
              (sum_today_images acc + TokenStats.today_image_count s)
              (sum_today_videos acc + TokenStats.today_video_count s)
              (sum_today_errors acc + TokenStats.today_error_count s)
  | None => acc
  end.

(** [for t in tokens: stats = await db.get_token_stats(t.id) ...] *)
Fixpoint add_up (tokens : list Token.t) (acc : sums) : M sums :=
  match tokens with
  | [] => ret acc
  | t :: rest =>
      (row <- PostgresDatabase.get_token_stats (Token.id t) ;;
       add_up rest (add_stats acc row))%coroutine
  end.

(** [t.is_active] as a condition *)
Definition is_active (t : Token.t) : bool :=
  match Token.is_active t with
  | Some b => b
  | None => false
  end.

(** GET /api/stats.  [get_all_tokens] is [token_manager.get_all_tokens]. *)
Definition get_stats (get_all_tokens : M (list Token.t)) : M stats :=
  (tokens <- get_all_tokens ;;
   let active := filter is_active tokens in
   acc <- add_up tokens (mk_sums 0 0 0 0 0 0) ;;
   ret (mk_stats (Z.of_nat (List.length tokens)) (Z.of_nat (List.length active))
          (sum_images acc) (sum_videos acc) (sum_errors acc)
          (sum_today_images acc) (sum_today_videos acc) (sum_today_errors acc)))%coroutine.

End admin_dashboard.

(* ===================================================================== *)
(** * The two [_mask_token] *)
(* ===================================================================== *)

(** A [str] is taken as the sequence of its characters: [len] is
    [String.length], [s[:n]] the first [n] of them, [s[-n:]] the last [n],
    and each is the whole of a shorter [s]. *)
Module Slices.

(** [s[:n]] *)
Definition first (n : nat) (s : string) : string := String.substring 0 n s.

(** [s[-n:]], for [0 < n] *)
Definition last (n : nat) (s : string) : string :=
  String.substring (String.length s - n) n s.

End Slices.

(** [src/api/admin.py] *)
Module admin_preview.

Definition _mask_token (token : option string) : string :=
  match token with
  | None => ""
  | Some t =>
      if (t =? "")%string then ""
      else if (String.length t <=? 24)%nat then t
      else (Slices.first 18 t ++ "..." ++ Slices.last 8 t)%string
  end.

End admin_preview.

(** [src/core/logger.py]; [debug_mask_token] is [config.debug_mask_token]. *)
Module logger_preview.

Definition _mask_token (debug_mask_token : bool) (token : string) : string :=
  if negb debug_mask_token || (String.length token <=? 12)%nat then token
  else (Slices.first 6 token ++ "..." ++ Slices.last 6 token)%string.

End logger_preview.

(* ===================================================================== *)
(** * Sample states *)
(* ===================================================================== *)

Module Samples.

(** A server on UTC, on day 739558 of the calendar. *)
Definition clk : clock :=
  mk_clock 739558 (mk_datetime 1762205100000000 None) (fun _ => 0).


(** An active credential, as a row of [tokens]. *)
Definition credential (id : Z) (st email : string) (last_used_at : option datetime)
  : Token.t :=
  Token.mk id st (Some "ya29.a0") None email None None (Some true)
           (Some (mk_datetime 1762200000000000 None)) last_used_at (Some 0) (Some 0)
           None None None (Some true) (Some true) (Some (-1)) (Some (-1)) None None.

(** Never used. *)
Definition fresh : Token.t := credential 1 "st-fresh" "fresh@example.com" None.

(** Last used ten minutes before [current_timestamp clk]. *)
Definition idle : Token.t :=
  credential 2 "st-idle" "idle@example.com" (Some (mk_datetime 1762204500000000 None)).

(** Last used at [current_timestamp clk]. *)
Definition busy : Token.t :=
  credential 3 "st-busy" "busy@example.com" (Some (mk_datetime 1762205100000000 None)).

Definition stats_of (id token_id : Z) : TokenStats.t :=
  TokenStats.mk id token_id 0 0 0 0 None None 0 0 0 None 0.

(** Yesterday's figures of credential 2. *)
Definition stale_stats : TokenStats.t :=
  TokenStats.mk 2 2 40 7 45 5 None None 12 3 2 (Some 739557) 2.

(** The three credentials, in the order they were added. *)
Definition pool : db :=
  mk_db [fresh; idle; busy] [stats_of 1 1; stale_stats; stats_of 3 3] [] [] [] 4 4 1 1 1.

Definition quiet (d : db) : world := mk_world d [] [].

(** The database after [add_token] of the first credential on a fresh
    server. *)
Definition one_credential : db :=
  store (snd (PostgresDatabase.run clk (PostgresDatabase.call_add_token fresh)
                (quiet init_db))).

(** A token manager whose exchange rejects every secret, whose refresh
    gives up, and which writes through the store. *)
Definition rejecting : TokenManager.t :=
  TokenManager.mk
    (fun _ => raise (Raised RuntimeError "ST to AT failed: 401"))
    (fun kwargs =>
       match dict_get "token_id" kwargs with
       | Some (PyInt i) =>
           PostgresDatabase.update_token clk i
             (filter (fun kv => negb (fst kv =? "token_id")%string) kwargs)
       | _ => raise (Raised DataError "token_id")
       end)
    (fun _ => ret (PyBool false))
    PostgresDatabase.get_token.

Definition iso : Datetime.t :=
  Datetime.mk (fun _ => inl (Raised RuntimeError "Invalid isoformat string"))
              (fun d => string_of_Z (micros d))
              "2025-11-03 21:25:00.000".

Definition cfg : Config.t := Config.mk "browser" false.


(** The pool with one generation task recorded for credential 2. *)
Definition pool_with_task : db :=
  mk_db [fresh; idle; busy] [stats_of 1 1; stale_stats; stats_of 3 3] []
        [Task.mk 1 "task-1" 2 "veo" "a prompt" "processing" (Some 0) None
                 (Some (mk_datetime 1762205000000000 None))]
        [] 4 4 1 2 1.

(** The pool before credential 2 got its row of statistics. *)
Definition pool_without_stats : db :=
  mk_db [fresh; idle; busy] [stats_of 1 1; stats_of 3 3] [] [] [] 4 4 1 1 1.

(** An administrator "admin" with password "secret", whose configuration
    is kept outside the world. *)
Definition admin_store : AdminStore.t :=
  AdminStore.mk
    (ret (Some (AdminConfig.mk "admin" "secret" "han1234" 3)))
    (fun _ => ret tt)
    (ret tt)
    (fun u p => (u =? "admin")%string && (p =? "secret")%string).

(** The first credential after one failed and one successful image
    generation. *)
Definition one_error_one_image : db :=
  store (snd (PostgresDatabase.run clk
                (PostgresDatabase.call_increment_token_stats 1 "image")
                (quiet (store (snd (PostgresDatabase.run clk
                                      (PostgresDatabase.call_increment_token_stats 1 "error")
                                      (quiet one_credential))))))).

End Samples.

(* ===================================================================== *)
(** * Properties of the store *)
(* ===================================================================== *)

Import PostgresDatabase.

(** ** Running statements *)

Lemma conn_run_lost {A : Type} (s : statement A) (w : world) (fs : list bool) :
  faults w = true :: fs ->
  exists e, conn_run s w = (inl e, mk_world (store w) fs (stdout w)).
Proof.
  intros Hf. unfold conn_run. rewrite Hf. eauto.
Qed.

Lemma conn_run_sent {A : Type} (s : statement A) (w : world) :
  hd false (faults w) = false ->
  conn_run s w = (fst (s (store w)), mk_world (snd (s (store w))) (tl (faults w)) (stdout w)).
Proof.
  intros Hf. unfold conn_run.
  destruct (faults w) as [|[|] fs]; simpl in *; try discriminate;
    destruct (s (store w)); reflexivity.
Qed.

(** A round trip either gets lost, and the database stays as it is, or the
    statement runs on the database. *)
Lemma conn_run_cases {A : Type} (s : statement A) (w : world) :
  (exists e, fst (conn_run s w) = inl e /\ store (snd (conn_run s w)) = store w)
  \/ (fst (conn_run s w) = fst (s (store w))
      /\ store (snd (conn_run s w)) = snd (s (store w))).
Proof.
  unfold conn_run.
  destruct (faults w) as [|[|] fs]; simpl.
  - right. destruct (s (store w)); auto.
  - left. eauto.
  - right. destruct (s (store w)); auto.
Qed.

(** ** C1: the order of [get_active_tokens] *)

Lemma timestamp_asc_total (a b : option datetime) :
  timestamp_asc a b = true \/ timestamp_asc b a = true.
Proof.
  destruct a, b; simpl; auto.
  destruct (Z.leb_spec (micros d) (micros d0)); auto.
  right. apply Z.leb_le. lia.
Qed.

Lemma timestamp_asc_trans (a b c : option datetime) :
  timestamp_asc a b = true -> timestamp_asc b c = true -> timestamp_asc a c = true.
Proof.
  destruct a, b, c; simpl; try congruence.
  rewrite !Z.leb_le. lia.
Qed.

Lemma insert_by_last_used_at_perm (r : Token.t) (rows : list Token.t) :
  Permutation (r :: rows) (insert_by_last_used_at r rows).
Proof.
  induction rows as [|r' rows IH]; simpl.
  - apply Permutation_refl.
  - destruct (timestamp_asc _ _).
    + apply Permutation_refl.
    + eapply perm_trans; [apply perm_swap|]. now apply perm_skip.
Qed.

Lemma insert_by_last_used_at_sorted (r : Token.t) (rows : list Token.t) :
  StronglySorted asc rows -> StronglySorted asc (insert_by_last_used_at r rows).
Proof.
  induction 1 as [|r' rows Hs IH Hall]; simpl.
  - constructor; constructor.
  - destruct (timestamp_asc (Token.last_used_at r) (Token.last_used_at r')) eqn:Hle.
    + constructor.
      * now constructor.
      * constructor; [exact Hle|].
        eapply Forall_impl; [|exact Hall].
        intros x Hx. eapply timestamp_asc_trans; eauto.
    + constructor; [exact IH|].
      assert (Hr : asc r' r).
      { destruct (timestamp_asc_total (Token.last_used_at r') (Token.last_used_at r));
          [assumption | unfold asc in *; congruence]. }
      eapply Permutation_Forall; [apply insert_by_last_used_at_perm|].
      now constructor.
Qed.

Lemma order_by_last_used_at_asc_perm (rows : list Token.t) :
  Permutation (order_by_last_used_at_asc rows) rows.
Proof.
  induction rows as [|r rows IH]; simpl; [constructor|].
  eapply perm_trans; [apply Permutation_sym, insert_by_last_used_at_perm|].
  now apply perm_skip.
Qed.

Lemma order_by_last_used_at_asc_sorted (rows : list Token.t) :
  StronglySorted asc (order_by_last_used_at_asc rows).
Proof.
  induction rows as [|r rows IH]; simpl; [constructor|].
  now apply insert_by_last_used_at_sorted.
Qed.

(** What [get_active_tokens] returns is an answer to its query. *)
Lemma get_active_tokens_answers (w : world) (rows : list Token.t) (w' : world) :
  get_active_tokens w = (inr rows, w') -> answers_active_tokens (store w) rows.
Proof.
  unfold get_active_tokens. intros Hrun.
  destruct (conn_run_cases sql_select_active_tokens w) as [(e & He & _) | (Hr & _)];
    rewrite Hrun in *; simpl in *; [discriminate|].
  injection Hr as ->. split.
  - apply order_by_last_used_at_asc_perm.
  - apply order_by_last_used_at_asc_sorted.
Qed.

Lemma sorted_app_inv (l1 l2 : list Token.t) (a b : Token.t) :
  StronglySorted asc (l1 ++ a :: l2) -> In b l2 -> asc a b.
Proof.
  induction l1 as [|x l1 IH]; simpl; intros Hs Hb.
  - inversion Hs as [|? ? _ Hall]; subst.
    rewrite Forall_forall in Hall. now apply Hall.
  - inversion Hs; subst. now apply IH.
Qed.

(** In every answer to the query, whatever the order among equal keys, a
    credential that was never used comes after every credential that was:
    no used credential stands behind it. *)
Lemma never_used_ranked_last (d : db) (rows l1 l2 : list Token.t) (a b : Token.t) :
  answers_active_tokens d rows ->
  rows = l1 ++ a :: l2 ->
  Token.last_used_at a = None ->
  In b l2 ->
  Token.last_used_at b = None.
Proof.
  intros [_ Hs] -> Ha Hb.
  pose proof (sorted_app_inv _ _ _ _ Hs Hb) as Hab.
  unfold asc in Hab. rewrite Ha in Hab.
  destruct (Token.last_used_at b); [discriminate | reflexivity].
Qed.

(** Among credentials that were used, the one idle for longer comes first. *)
Lemma longer_idle_ranked_first (d : db) (rows l1 l2 : list Token.t)
    (a b : Token.t) (ta tb : datetime) :
  answers_active_tokens d rows ->
  rows = l1 ++ b :: l2 ->
  Token.last_used_at a = Some ta ->
  Token.last_used_at b = Some tb ->
  micros ta < micros tb ->
  ~ In a l2.
Proof.
  intros [_ Hs] -> Ha Hb Hlt Hin.
  pose proof (sorted_app_inv _ _ _ _ Hs Hin) as Hba.
  unfold asc in Hba. rewrite Ha, Hb in Hba. simpl in Hba.
  apply Z.leb_le in Hba. lia.
Qed.

(** C1.  On the pool of a never-used credential, one used ten minutes ago
    and one used just now, all three active, [get_active_tokens] returns the
    never-used credential last, behind both of the others: the query sorts
    NULL keys after all values. *)
Theorem get_active_tokens_never_used_last :
  get_active_tokens (Samples.quiet Samples.pool)
  = (inr [Samples.idle; Samples.busy; Samples.fresh], Samples.quiet Samples.pool).
Proof.
  reflexivity.
Qed.

(** ** C2: [add_token] is two statements *)

Ltac break_if :=
  match goal with
  | |- context [if ?b then _ else _] => destruct b eqn:?
  | H : context [if ?b then _ else _] |- _ => destruct b eqn:?
  end.

(** What each INSERT of [add_token] can leave behind. *)
Lemma sql_insert_token_cases (clk : clock) (token : Token.t) (d : db) :
  (exists e, fst (sql_insert_token clk token d) = inl e
             /\ tokens (snd (sql_insert_token clk token d)) = tokens d
             /\ token_stats (snd (sql_insert_token clk token d)) = token_stats d)
  \/ (exists r, fst (sql_insert_token clk token d) = inr (Token.id r)
                /\ Token.st r = Token.st token
                /\ existsb (fun r' => (Token.st r' =? Token.st token)%string) (tokens d) = false
                /\ tokens (snd (sql_insert_token clk token d)) = tokens d ++ [r]
                /\ token_stats (snd (sql_insert_token clk token d)) = token_stats d).
Proof.
  unfold sql_insert_token, violation.
  repeat break_if; simpl; eauto 8.
  right. eexists. split; [|split; [|split; [|split]]].
  4: reflexivity.
  all: simpl; auto.
Qed.

Lemma sql_insert_token_stats_cases (token_id : Z) (d : db) :
  (exists e, fst (sql_insert_token_stats token_id d) = inl e
             /\ tokens (snd (sql_insert_token_stats token_id d)) = tokens d
             /\ token_stats (snd (sql_insert_token_stats token_id d)) = token_stats d)
  \/ (exists sid, fst (sql_insert_token_stats token_id d) = inr tt
                  /\ tokens (snd (sql_insert_token_stats token_id d)) = tokens d
                  /\ token_stats (snd (sql_insert_token_stats token_id d))
                     = token_stats d
                       ++ [TokenStats.mk sid token_id 0 0 0 0 None None 0 0 0 None 0]).
Proof.
  unfold sql_insert_token_stats, violation.
  repeat break_if; simpl; eauto 8.
Qed.

(** C2 fails as stated: on the empty database, when the first INSERT goes
    through and the second is lost, [add_token] raises and leaves the
    credential in [tokens] with no row in [token_stats]. *)
Lemma add_token_not_all_or_nothing :
  exists e w' r,
    add_token Samples.clk Samples.fresh (mk_world init_db [false; true] []) = (inl e, w')
    /\ tokens (store w') = [r]
    /\ Token.st r = Token.st Samples.fresh
    /\ token_stats (store w') = [].
Proof.
  do 3 eexists. vm_compute. repeat split.
Qed.

(** C2, amended.  Every execution of [add_token] ends in one of three ways:
    it returns the new id, and the credential row and a zeroed stats row
    pointing to it have been appended; or it raises with both tables as they
    were; or it raises after the first INSERT, and the credential row has
    been appended while [token_stats] is as it was. *)
Theorem add_token_outcomes (clk : clock) (token : Token.t) (w : world) :
  let out := add_token clk token w in
  let d := store w in
  let d' := store (snd out) in
  (exists r sid,
      fst out = inr (Token.id r)
      /\ Token.st r = Token.st token
      /\ tokens d' = tokens d ++ [r]
      /\ token_stats d'
         = token_stats d
           ++ [TokenStats.mk sid (Token.id r) 0 0 0 0 None None 0 0 0 None 0])
  \/ (exists e, fst out = inl e /\ tokens d' = tokens d /\ token_stats d' = token_stats d)
  \/ (exists e r,
         fst out = inl e
         /\ Token.st r = Token.st token
         /\ tokens d' = tokens d ++ [r]
         /\ token_stats d' = token_stats d).
Proof.
  cbv zeta. unfold add_token, bind.
  destruct (conn_run_cases (sql_insert_token clk token) w) as [(e & He & Hst) | (Hr & Hst)].
  - (* the first round trip is lost *)
    right; left.
    destruct (conn_run (sql_insert_token clk token) w) as [[e'|i] w1]; simpl in *;
      [|discriminate].
    exists e'. rewrite Hst. auto.
  - destruct (sql_insert_token_cases clk token (store w))
      as [(e & He & Ht & Hs) | (r & Hid & Hrst & _ & Ht & Hs)].
    + (* the first INSERT raises *)
      right; left.
      destruct (conn_run (sql_insert_token clk token) w) as [[e'|i] w1]; simpl in *;
        [|congruence].
      exists e'. rewrite Hst. auto.
    + destruct (conn_run (sql_insert_token clk token) w) as [[e'|i] w1]; simpl in *;
        [congruence|].
      assert (i = Token.id r) by congruence. subst i.
      destruct (conn_run_cases (sql_insert_token_stats (Token.id r)) w1)
        as [(e & He & Hst2) | (Hr2 & Hst2)].
      * (* the second round trip is lost *)
        right; right.
        destruct (conn_run (sql_insert_token_stats (Token.id r)) w1) as [[e'|u] w2];
          simpl in *; [|discriminate].
        exists e', r. rewrite Hst2, Hst. auto.
      * destruct (sql_insert_token_stats_cases (Token.id r) (store w1))
          as [(e & He & Ht2 & Hs2) | (sid & Hu & Ht2 & Hs2)].
        -- (* the second INSERT raises *)
           right; right.
           destruct (conn_run (sql_insert_token_stats (Token.id r)) w1) as [[e'|u] w2];
             simpl in *; [|congruence].
           exists e', r. rewrite Hst2, Ht2, Hs2, Hst. auto.
        -- left.
           destruct (conn_run (sql_insert_token_stats (Token.id r)) w1) as [[e'|u] w2];
             simpl in *; [congruence|].
           exists r, sid. rewrite Hst2, Ht2, Hs2, Hst, Ht, Hs. auto.
Qed.

(** ** C3, C4: the counters *)

Lemma int4_param_cases {A : Type} (n : Z) (s : statement A) (d : db) :
  (int4_ok n = false /\ exists e, int4_param n s d = (inl e, d))
  \/ (int4_ok n = true /\ int4_param n s d = s d).
Proof.
  unfold int4_param, violation. destruct (int4_ok n); eauto.
Qed.

Lemma find_map_hit {A : Type} (hit : A -> bool) (f : A -> A) (l : list A) :
  (forall a, hit (f a) = hit a) ->
  find hit (map (fun a => if hit a then f a else a) l) = option_map f (find hit l).
Proof.
  intros Hf. induction l as [|a l IH]; simpl; [reflexivity|].
  destruct (hit a) eqn:Ha.
  - rewrite Hf, Ha. reflexivity.
  - rewrite Ha. exact IH.
Qed.

Section Update_token_stats.

Variable token_id : Z.
Variable set : TokenStats.t -> TokenStats.t.
Variable written : TokenStats.t -> list Z.
Hypothesis set_token_id : forall s, TokenStats.token_id (set s) = TokenStats.token_id s.

(** The UPDATE either raises and changes nothing, or rewrites the rows of
    the credential and nothing else. *)
Lemma sql_update_token_stats_cases (d : db) :
  (exists e, sql_update_token_stats token_id set written d = (inl e, d))
  \/ (exists d', sql_update_token_stats token_id set written d = (inr tt, d')
                 /\ stats_row token_id d' = option_map set (stats_row token_id d)
                 /\ token_stats d'
                    = map (fun s => if TokenStats.token_id s =? token_id then set s else s)
                          (token_stats d)
                 /\ tokens d' = tokens d /\ projects d' = projects d
                 /\ tasks d' = tasks d /\ request_logs d' = request_logs d).
Proof.
  unfold sql_update_token_stats.
  destruct (int4_param_cases token_id
              (fun d0 =>
                 if forallb (fun s => negb (TokenStats.token_id s =? token_id)
                                      || forallb int4_ok (written (set s))) (token_stats d0)
                 then (inr tt,
                       with_token_stats
                         (map (fun s => if TokenStats.token_id s =? token_id then set s else s)
                              (token_stats d0)) d0)
                 else violation NumericValueOutOfRangeError "integer out of range" d0) d)
    as [(_ & e & He) | (_ & He)]; rewrite He.
  - left; eauto.
  - break_if.
    + right. eexists. split; [reflexivity|]. simpl. repeat split.
      unfold stats_row; simpl.
      apply (find_map_hit (fun s => TokenStats.token_id s =? token_id) set).
      intros s. now rewrite set_token_id.
    + left. unfold violation. eauto.
Qed.


End Update_token_stats.

Lemma conn_run_inr {A : Type} (s : statement A) (w w' : world) (a : A) :
  conn_run s w = (inr a, w') ->
  s (store w) = (inr a, store w') /\ stdout w' = stdout w.
Proof.
  unfold conn_run.
  destruct (faults w) as [|[|] fs]; try discriminate;
    destruct (s (store w)) as [r d]; intros H; injection H as -> <-; auto.
Qed.

Lemma conn_run_returns {A : Type} (s : statement A) (w : world) (a : A) (d' : db) :
  faults w = [] ->
  s (store w) = (inr a, d') ->
  conn_run s w = (inr a, mk_world d' [] (stdout w)).
Proof.
  intros Hf Hs. unfold conn_run. rewrite Hf, Hs. reflexivity.
Qed.


Section Increment.

Variable clk : clock.
Variable token_id : Z.
Variables set_new_day set_same_day : TokenStats.t -> TokenStats.t.
Variable written : TokenStats.t -> list Z.
Hypothesis new_day_token_id :
  forall s, TokenStats.token_id (set_new_day s) = TokenStats.token_id s.
Hypothesis same_day_token_id :
  forall s, TokenStats.token_id (set_same_day s) = TokenStats.token_id s.




End Increment.

(** ** Relations kept by every statement are kept by every call *)

Section Kept.

Variable R : db -> db -> Prop.
Hypothesis R_refl : forall d, R d d.
Hypothesis R_trans : forall d1 d2 d3, R d1 d2 -> R d2 d3 -> R d1 d3.

Lemma keeps_conn_run {A : Type} (s : statement A) :
  statement_keeps R s -> keeps R (conn_run s).
Proof.
  intros Hs w.
  destruct (conn_run_cases s w) as [(e & _ & ->) | (_ & ->)]; [apply R_refl | apply Hs].
Qed.

Lemma keeps_bind {A B : Type} (c : M A) (k : A -> M B) :
  keeps R c -> (forall a, keeps R (k a)) -> keeps R (bind c k).
Proof.
  intros Hc Hk w. unfold bind. specialize (Hc w).
  destruct (c w) as [[e|a] w1]; simpl in *; [exact Hc|].
  eapply R_trans; [exact Hc | apply Hk].
Qed.

Lemma keeps_ret {A : Type} (a : A) : keeps R (ret a).
Proof. intros w. apply R_refl. Qed.

Lemma keeps_raise {A : Type} (e : exn) : keeps R (@raise A e).
Proof. intros w. apply R_refl. Qed.

Lemma keeps_query {A : Type} (q : db -> A) : statement_keeps R (query q).
Proof. intros d. apply R_refl. Qed.

Lemma keeps_int4_param {A : Type} (n : Z) (s : statement A) :
  statement_keeps R s -> statement_keeps R (int4_param n s).
Proof.
  intros Hs d. unfold int4_param, violation.
  destruct (int4_ok n); [apply Hs | apply R_refl].
Qed.

Hypothesis insert_token : forall clk token, statement_keeps R (sql_insert_token clk token).
Hypothesis insert_token_stats : forall token_id, statement_keeps R (sql_insert_token_stats token_id).
Hypothesis update_tokens :
  forall updates token_id, statement_keeps R (sql_update_tokens updates token_id).
Hypothesis delete_token_stats :
  forall token_id, statement_keeps R (sql_delete_token_stats token_id).
Hypothesis delete_projects_of :
  forall token_id, statement_keeps R (sql_delete_projects_of token_id).
Hypothesis delete_token_row : forall token_id, statement_keeps R (sql_delete_token token_id).
Hypothesis insert_project : forall clk project, statement_keeps R (sql_insert_project clk project).
Hypothesis delete_project_row :
  forall project_id, statement_keeps R (sql_delete_project project_id).
Hypothesis insert_task : forall clk task, statement_keeps R (sql_insert_task clk task).
Hypothesis insert_request_log :
  forall clk log, statement_keeps R (sql_insert_request_log clk log).
Hypothesis delete_request_logs :
  statement_keeps R (fun d => (@inr exn unit tt, with_request_logs [] d)).
Hypothesis reset_consecutive :
  forall token_id,
    statement_keeps R (sql_update_token_stats token_id set_no_consecutive_error (fun _ => [])).

Lemma keeps_select_today_date (token_id : Z) :
  statement_keeps R (sql_select_today_date token_id).
Proof. apply keeps_int4_param, keeps_query. Qed.

(** Every call except an increment keeps [R]. *)
Lemma keeps_run_but_increment (clk : clock) (c : call) :
  (forall token_id stat_type, c <> call_increment_token_stats token_id stat_type) ->
  keeps R (run clk c).
Proof.
  intros Hc. destruct c; simpl.
  - unfold add_token.
    repeat (apply keeps_bind; [|intros]); auto using keeps_conn_run, keeps_ret.
  - unfold update_token.
    destruct (build_updates clk kwargs) as [e|[|u us]];
      auto using keeps_conn_run, keeps_ret, keeps_raise.
  - unfold delete_token.
    repeat (apply keeps_bind; [|intros]); auto using keeps_conn_run.
  - unfold add_project.
    repeat (apply keeps_bind; [|intros]); auto using keeps_conn_run, keeps_ret.
  - unfold delete_project. auto using keeps_conn_run.
  - unfold create_task.
    repeat (apply keeps_bind; [|intros]); auto using keeps_conn_run, keeps_ret.
  - unfold add_request_log. auto using keeps_conn_run.
  - unfold clear_all_logs. auto using keeps_conn_run.
  - exfalso. eapply Hc. reflexivity.
  - unfold reset_error_count. auto using keeps_conn_run.
Qed.

Hypothesis update_token_stats :
  forall token_id set written,
    (forall s, TokenStats.token_id (set s) = TokenStats.token_id s) ->
    statement_keeps R (sql_update_token_stats token_id set written).

Lemma keeps_increment_shape (clk : clock) (token_id : Z)
    (set_new_day set_same_day : TokenStats.t -> TokenStats.t)
    (written : TokenStats.t -> list Z) :
  (forall s, TokenStats.token_id (set_new_day s) = TokenStats.token_id s) ->
  (forall s, TokenStats.token_id (set_same_day s) = TokenStats.token_id s) ->
  keeps R (increment_shape clk token_id set_new_day set_same_day written).
Proof.
  intros Hn Hs. unfold increment_shape.
  apply keeps_bind; [apply keeps_conn_run, keeps_select_today_date|].
  intros row. destruct (rolled_over clk row); apply keeps_conn_run; auto.
Qed.

(** Every call keeps [R]. *)
Lemma keeps_run (clk : clock) (c : call) : keeps R (run clk c).
Proof.
  destruct c; try (apply keeps_run_but_increment; discriminate).
  simpl. unfold increment_token_stats.
  repeat break_if; try apply keeps_ret; apply keeps_increment_shape; reflexivity.
Qed.

End Kept.

(** ** What each statement leaves untouched *)

Ltac run_statement :=
  intros; unfold violation;
  repeat first [ break_if | progress simpl ]; try reflexivity.

Lemma sql_insert_token_token_stats clk token d :
  token_stats (snd (sql_insert_token clk token d)) = token_stats d.
Proof. unfold sql_insert_token. run_statement. Qed.

Lemma sql_insert_token_stats_tokens token_id d :
  tokens (snd (sql_insert_token_stats token_id d)) = tokens d.
Proof. unfold sql_insert_token_stats. run_statement. Qed.

Lemma sql_update_tokens_token_stats updates token_id d :
  token_stats (snd (sql_update_tokens updates token_id d)) = token_stats d.
Proof.
  unfold sql_update_tokens. destruct (bind_updates updates); [reflexivity|]. run_statement.
Qed.

Lemma sql_delete_token_stats_tokens token_id d :
  tokens (snd (sql_delete_token_stats token_id d)) = tokens d.
Proof. unfold sql_delete_token_stats, int4_param. run_statement. Qed.

Lemma sql_delete_projects_of_frame token_id d :
  tokens (snd (sql_delete_projects_of token_id d)) = tokens d
  /\ token_stats (snd (sql_delete_projects_of token_id d)) = token_stats d.
Proof. unfold sql_delete_projects_of, int4_param. split; run_statement. Qed.

Lemma sql_delete_token_token_stats token_id d :
  token_stats (snd (sql_delete_token token_id d)) = token_stats d.
Proof. unfold sql_delete_token, int4_param. run_statement. Qed.

Lemma sql_insert_project_frame clk project d :
  tokens (snd (sql_insert_project clk project d)) = tokens d
  /\ token_stats (snd (sql_insert_project clk project d)) = token_stats d.
Proof. unfold sql_insert_project. split; run_statement. Qed.

Lemma sql_delete_project_frame project_id d :
  tokens (snd (sql_delete_project project_id d)) = tokens d
  /\ token_stats (snd (sql_delete_project project_id d)) = token_stats d.
Proof. unfold sql_delete_project. split; run_statement. Qed.

Lemma sql_insert_task_frame clk task d :
  tokens (snd (sql_insert_task clk task d)) = tokens d
  /\ token_stats (snd (sql_insert_task clk task d)) = token_stats d.
Proof. unfold sql_insert_task. split; run_statement. Qed.

Lemma sql_insert_request_log_frame clk log d :
  tokens (snd (sql_insert_request_log clk log d)) = tokens d
  /\ token_stats (snd (sql_insert_request_log clk log d)) = token_stats d.
Proof. unfold sql_insert_request_log. split; run_statement. Qed.

Lemma sql_update_token_stats_tokens token_id set written d :
  tokens (snd (sql_update_token_stats token_id set written d)) = tokens d.
Proof. unfold sql_update_token_stats, int4_param. run_statement. Qed.

(** ** C3: the daily counters *)








(** ** C4: the consecutive errors *)




(** ** C5: [delete_token] *)

Lemma sql_delete_token_stats_inr (token_id : Z) (d d' : db) :
  sql_delete_token_stats token_id d = (inr tt, d') ->
  int4_ok token_id = true
  /\ d' = with_token_stats
            (filter (fun s => negb (TokenStats.token_id s =? token_id)) (token_stats d)) d.
Proof.
  unfold sql_delete_token_stats, int4_param, violation.
  destruct (int4_ok token_id); [|discriminate].
  intros H; injection H as <-. auto.
Qed.

Lemma sql_delete_projects_of_inr (token_id : Z) (d d' : db) :
  sql_delete_projects_of token_id d = (inr tt, d') ->
  d' = with_projects
         (filter (fun p => negb (Project.token_id p =? token_id)) (projects d)) d.
Proof.
  unfold sql_delete_projects_of, int4_param, violation.
  destruct (int4_ok token_id); [|discriminate].
  intros H; injection H as <-. auto.
Qed.

Lemma sql_delete_token_inr (token_id : Z) (d d' : db) :
  sql_delete_token token_id d = (inr tt, d') ->
  d' = with_tokens (filter (fun r => negb (Token.id r =? token_id)) (tokens d)) d.
Proof.
  unfold sql_delete_token, int4_param, violation.
  destruct (int4_ok token_id); [|discriminate].
  destruct (has_token token_id (tokens d) && referenced token_id d); [discriminate|].
  intros H; injection H as <-. auto.
Qed.

Lemma sql_delete_token_returns (token_id : Z) (d : db) :
  int4_ok token_id = true ->
  referenced token_id d = false ->
  sql_delete_token token_id d
  = (inr tt, with_tokens (filter (fun r => negb (Token.id r =? token_id)) (tokens d)) d).
Proof.
  intros Hid Href. unfold sql_delete_token, int4_param.
  now rewrite Hid, Href, andb_false_r.
Qed.

Lemma existsb_filter_negb {A : Type} (p : A -> bool) (l : list A) :
  existsb p (filter (fun a => negb (p a)) l) = false.
Proof.
  induction l as [|a l IH]; simpl; [reflexivity|].
  destruct (p a) eqn:Hp; simpl; [exact IH | now rewrite Hp].
Qed.

(** C5.  (1) When [delete_token] returns, no row of [tokens] has the id
    and no row of [token_stats] or [projects] points to it, while the rows
    of every other credential are still there.  (2) It returns when no
    statement is lost, the id fits an INTEGER and no row of [tasks] or
    [request_logs] points to the credential. *)
Theorem delete_token_cascades (token_id : Z) (w : world) :
  (forall w',
      delete_token token_id w = (inr tt, w') ->
      (forall r, In r (tokens (store w')) -> Token.id r <> token_id)
      /\ (forall s, In s (token_stats (store w')) -> TokenStats.token_id s <> token_id)
      /\ (forall p, In p (projects (store w')) -> Project.token_id p <> token_id)
      /\ (forall r, In r (tokens (store w)) -> Token.id r <> token_id ->
                    In r (tokens (store w')))
      /\ (forall s, In s (token_stats (store w)) -> TokenStats.token_id s <> token_id ->
                    In s (token_stats (store w')))
      /\ (forall p, In p (projects (store w)) -> Project.token_id p <> token_id ->
                    In p (projects (store w'))))
  /\ (faults w = [] ->
      int4_ok token_id = true ->
      (forall t, In t (tasks (store w)) -> Task.token_id t <> token_id) ->
      (forall l, In l (request_logs (store w)) -> RequestLog.token_id l <> Some token_id) ->
      exists w', delete_token token_id w = (inr tt, w')).
Proof.
  split.
  - intros w'. unfold delete_token, bind.
    destruct (conn_run (sql_delete_token_stats token_id) w) as [[e|[]] w1] eqn:H1;
      [discriminate|].
    destruct (conn_run (sql_delete_projects_of token_id) w1) as [[e|[]] w2] eqn:H2;
      [discriminate|].
    intros H3.
    apply conn_run_inr in H1, H2, H3.
    destruct H1 as [H1 _], H2 as [H2 _], H3 as [H3 _].
    apply sql_delete_token_stats_inr in H1. destruct H1 as [_ H1].
    apply sql_delete_projects_of_inr in H2.
    apply sql_delete_token_inr in H3.
    rewrite H3, H2, H1. simpl.
    repeat split; intros x Hx.
    + apply filter_In in Hx. destruct Hx as [_ Hx].
      apply negb_true_iff, Z.eqb_neq in Hx. exact Hx.
    + apply filter_In in Hx. destruct Hx as [_ Hx].
      apply negb_true_iff, Z.eqb_neq in Hx. exact Hx.
    + apply filter_In in Hx. destruct Hx as [_ Hx].
      apply negb_true_iff, Z.eqb_neq in Hx. exact Hx.
    + intros Hne. apply filter_In. split; [exact Hx|].
      now apply negb_true_iff, Z.eqb_neq.
    + intros Hne. apply filter_In. split; [exact Hx|].
      now apply negb_true_iff, Z.eqb_neq.
    + intros Hne. apply filter_In. split; [exact Hx|].
      now apply negb_true_iff, Z.eqb_neq.
  - intros Hf Hid Htasks Hlogs. unfold delete_token, bind.
    erewrite conn_run_returns;
      [| exact Hf | unfold sql_delete_token_stats, int4_param; rewrite Hid; reflexivity].
    erewrite conn_run_returns;
      [| reflexivity | unfold sql_delete_projects_of, int4_param; rewrite Hid; reflexivity].
    erewrite conn_run_returns;
      [eauto | reflexivity | apply sql_delete_token_returns; [exact Hid|]].
    unfold referenced. simpl.
    rewrite (existsb_filter_negb (fun s => TokenStats.token_id s =? token_id)).
    rewrite (existsb_filter_negb (fun p => Project.token_id p =? token_id)).
    simpl.
    assert (Ht : existsb (fun t => Task.token_id t =? token_id) (tasks (store w)) = false).
    { apply not_true_is_false. intros Hex. apply existsb_exists in Hex.
      destruct Hex as (t & Hin & Heq). apply Z.eqb_eq in Heq. exact (Htasks t Hin Heq). }
    rewrite Ht. simpl.
    apply not_true_is_false. intros Hex. apply existsb_exists in Hex.
    destruct Hex as (l & Hin & Heq).
    destruct (RequestLog.token_id l) as [i|] eqn:Hl; [|discriminate].
    apply Z.eqb_eq in Heq. subst i. exact (Hlogs l Hin Hl).
Qed.

(** Credential 2 of the sample pool is deleted with its statistics; the
    other two credentials stay. *)
Lemma delete_token_cascades_witness :
  exists w',
    delete_token 2 (Samples.quiet Samples.pool) = (inr tt, w')
    /\ (forall r, In r (tokens (store w')) -> Token.id r <> 2)
    /\ (forall s, In s (token_stats (store w')) -> TokenStats.token_id s <> 2)
    /\ In Samples.fresh (tokens (store w')).
Proof.
  destruct (delete_token_cascades 2 (Samples.quiet Samples.pool)) as (Hgone & Hret).
  destruct (Hret eq_refl eq_refl) as (w' & Hw').
  - intros t [].
  - intros l [].
  - destruct (Hgone w' Hw') as (Ht & Hs & _ & Hkeep & _).
    exists w'. repeat split; try assumption.
    apply Hkeep; [simpl; auto | discriminate].
Defined.

(** ** C8: the session secret is unique *)

Lemma distinct_NoDup (l : list string) : distinct String.eqb l = true -> NoDup l.
Proof.
  induction l as [|x l IH]; simpl; intros H; [constructor|].
  apply andb_prop in H. destruct H as [Hx Hl].
  constructor; [|auto].
  intros Hin. apply negb_true_iff in Hx.
  assert (existsb (String.eqb x) l = true); [|congruence].
  apply existsb_exists. exists x. split; [exact Hin | apply String.eqb_refl].
Qed.

Lemma filter_keeps_distinct_st (keep : Token.t -> bool) (rows : list Token.t) :
  NoDup (map Token.st rows) -> NoDup (map Token.st (filter keep rows)).
Proof.
  intros Hrows. induction rows as [|r rows IH]; simpl; [constructor|].
  inversion Hrows as [|? ? Hfresh Hrest]; subst.
  destruct (keep r); simpl; [|auto].
  constructor; [|auto].
  intros Hin. apply Hfresh.
  apply in_map_iff in Hin. destruct Hin as (r' & Hst & Hin).
  apply filter_In in Hin. apply in_map_iff. exists r'. tauto.
Qed.

Lemma st_unique_kept_same (d d' : db) : tokens d' = tokens d -> st_unique_kept d d'.
Proof. unfold st_unique_kept, st_unique. now intros ->. Qed.

Lemma st_unique_kept_insert_token clk token :
  statement_keeps st_unique_kept (sql_insert_token clk token).
Proof.
  intros d.
  destruct (sql_insert_token_cases clk token d)
    as [(e & _ & Ht & _) | (r & _ & Hst & Hnew & Ht & _)].
  - now apply st_unique_kept_same.
  - unfold st_unique_kept, st_unique. rewrite Ht, map_app. simpl. intros Hd.
    apply NoDup_app_remove_l with (l := []); simpl.
    apply Permutation_NoDup with (l := Token.st r :: map Token.st (tokens d)).
    + apply Permutation_cons_append.
    + constructor; [|exact Hd].
      intros Hin. apply in_map_iff in Hin. destruct Hin as (r' & Heq & Hin).
      assert (existsb (fun r0 => (Token.st r0 =? Token.st token)%string) (tokens d) = true);
        [|congruence].
      apply existsb_exists. exists r'. split; [exact Hin|].
      apply String.eqb_eq. congruence.
Qed.

Lemma st_unique_kept_update_tokens updates token_id :
  statement_keeps st_unique_kept (sql_update_tokens updates token_id).
Proof.
  intros d. unfold sql_update_tokens, violation.
  destruct (bind_updates updates) as [e|sets]; [now apply st_unique_kept_same|].
  repeat break_if; simpl; try now apply st_unique_kept_same.
  intros _. unfold st_unique. simpl.
  apply distinct_NoDup. now apply negb_false_iff.
Qed.

Lemma st_unique_kept_delete_token token_id :
  statement_keeps st_unique_kept (sql_delete_token token_id).
Proof.
  intros d. unfold sql_delete_token, int4_param, violation.
  repeat break_if; simpl; try now apply st_unique_kept_same.
  unfold st_unique_kept, st_unique. simpl. apply filter_keeps_distinct_st.
Qed.

Lemma st_unique_kept_run (clk : clock) (c : call) : keeps st_unique_kept (run clk c).
Proof.
  apply keeps_run;
    try (intros; intros d; apply st_unique_kept_same;
         first [ apply sql_insert_token_stats_tokens
               | apply sql_delete_token_stats_tokens
               | apply sql_delete_projects_of_frame
               | apply sql_insert_project_frame
               | apply sql_delete_project_frame
               | apply sql_insert_task_frame
               | apply sql_insert_request_log_frame
               | apply sql_update_token_stats_tokens
               | reflexivity ]).
  - intros d Hd. exact Hd.
  - intros d1 d2 d3 H12 H23 Hd. auto.
  - apply st_unique_kept_insert_token.
  - apply st_unique_kept_update_tokens.
  - apply st_unique_kept_delete_token.
Qed.

Lemma reachable_st_unique (d : db) : reachable d -> st_unique d.
Proof.
  induction 1 as [|d clk c fs out _ IH].
  - constructor.
  - exact (st_unique_kept_run clk c (mk_world d fs out) IH).
Qed.

Lemma add_token_known_st (clk : clock) (token : Token.t) (w : world) :
  (exists r, In r (tokens (store w)) /\ Token.st r = Token.st token) ->
  exists e w',
    add_token clk token w = (inl e, w')
    /\ tokens (store w') = tokens (store w)
    /\ token_stats (store w') = token_stats (store w).
Proof.
  intros (r & Hin & Hst). unfold add_token, bind.
  destruct (conn_run_cases (sql_insert_token clk token) w) as [(e & He & Hs) | (Hr & Hs)].
  - destruct (conn_run (sql_insert_token clk token) w) as [[e'|i] w1]; simpl in *;
      [|discriminate].
    exists e', w1. rewrite Hs. auto.
  - destruct (sql_insert_token_cases clk token (store w))
      as [(e & He & Ht & Hts) | (r' & _ & _ & Hnew & _)].
    + destruct (conn_run (sql_insert_token clk token) w) as [[e'|i] w1]; simpl in *;
        [|congruence].
      exists e', w1. rewrite Hs. auto.
    + assert (existsb (fun r0 => (Token.st r0 =? Token.st token)%string)
                      (tokens (store w)) = true); [|congruence].
      apply existsb_exists. exists r. split; [exact Hin | now apply String.eqb_eq].
Qed.

(** C8.  (1) In every database the store can reach from [init_db], by any
    sequence of calls, returning or raising, no two rows of [tokens] hold
    the same session secret.  (2) [add_token] with a session secret that a
    row already holds raises, and leaves [tokens] and [token_stats] as they
    were. *)
Theorem session_secret_unique :
  (forall d, reachable d -> NoDup (map Token.st (tokens d)))
  /\ (forall clk token w,
         (exists r, In r (tokens (store w)) /\ Token.st r = Token.st token) ->
         exists e w',
           add_token clk token w = (inl e, w')
           /\ tokens (store w') = tokens (store w)
           /\ token_stats (store w') = token_stats (store w)).
Proof.
  split; [exact reachable_st_unique | exact add_token_known_st].
Qed.

(** The first credential, added twice: the second [add_token] raises and
    the table keeps its single row. *)
Lemma session_secret_unique_witness :
  NoDup (map Token.st (tokens Samples.one_credential))
  /\ exists e w',
      add_token Samples.clk Samples.fresh (Samples.quiet Samples.one_credential) = (inl e, w')
      /\ tokens (store w') = tokens Samples.one_credential.
Proof.
  destruct session_secret_unique as [Hinv Hdup]. split.
  - apply Hinv. apply reachable_call, reachable_init.
  - destruct (Hdup Samples.clk Samples.fresh (Samples.quiet Samples.one_credential))
      as (e & w' & Hrun & Ht & _).
    + eexists. split; [left; reflexivity | reflexivity].
    + exists e, w'. split; assumption.
Defined.

(** ** C10: [update_token] skips [None] *)












(* ===================================================================== *)
(** * Properties of the endpoints *)
(* ===================================================================== *)

(** ** C6: [update_token] exchanges the secret first *)




(** ** C7: [refresh_at] reports a failed refresh *)

Lemma print_returns (line : string) (w : world) :
  exists w', print line w = (inr tt, w') /\ store w' = store w /\ faults w' = faults w.
Proof. unfold print. eauto. Qed.

Lemma log_info_returns (cfg : Config.t) (dt : Datetime.t) (m : string) (w : world) :
  exists w', DebugLogger.log_info cfg dt m w = (inr tt, w')
             /\ store w' = store w /\ faults w' = faults w.
Proof.
  unfold DebugLogger.log_info, ret.
  destruct (Config.debug_enabled cfg); simpl; [apply print_returns | eauto].
Qed.

Lemma log_error_returns (cfg : Config.t) (dt : Datetime.t) (m : string) (w : world) :
  exists w', DebugLogger.log_error cfg dt m w = (inr tt, w')
             /\ store w' = store w /\ faults w' = faults w.
Proof.
  unfold DebugLogger.log_error, DebugLogger._write_separator, bind, ret, print.
  destruct (Config.debug_enabled cfg); simpl; eauto.
Qed.

Ltac step_log H :=
  match type of H with
  | context [DebugLogger.log_error ?c ?d ?m ?w] =>
      let w' := fresh "w" in
      let E := fresh "Hlog" in
      destruct (log_error_returns c d m w) as (w' & E & _); rewrite E in H; clear E
  | context [DebugLogger.log_info ?c ?d ?m ?w] =>
      let w' := fresh "w" in
      let E := fresh "Hlog" in
      destruct (log_info_returns c d m w) as (w' & E & _); rewrite E in H; clear E
  end.

(** C7.  Let [w0] be the world in which the refresh of the token manager is
    called.  (1) When it returns a false value, the endpoint raises an
    [HTTPException] of status 500.  (2) When it raises, the endpoint raises:
    an [HTTPException] as it is, another [Exception] as an [HTTPException]
    of status 500.  (3) When the endpoint returns, its answer says success,
    the refresh has returned a true value, and the answer carries the id,
    the email and the expiry of the credential read back after it. *)
Theorem refresh_at_never_pretends (cfg : Config.t) (tm : TokenManager.t)
    (dt : Datetime.t) (token_id : Z) (w : world) :
  let w0 := snd (admin.log_refresh_request cfg dt token_id w) in
  (forall v w1,
      TokenManager._refresh_at tm token_id w0 = (inr v, w1) ->
      truthy v = false ->
      exists detail w',
        admin.refresh_at cfg tm dt token_id w = (inl (HTTPException 500 detail), w'))
  /\ (forall e w1,
         TokenManager._refresh_at tm token_id w0 = (inl e, w1) ->
         exists e' w',
           admin.refresh_at cfg tm dt token_id w = (inl e', w')
           /\ (is_HTTPException e = true -> e' = e)
           /\ (is_Exception e = true -> is_HTTPException e = false ->
               exists detail, e' = HTTPException 500 detail))
  /\ (forall resp w',
         admin.refresh_at cfg tm dt token_id w = (inr resp, w') ->
         admin.success resp = true
         /\ exists v w1 t w2,
             TokenManager._refresh_at tm token_id w0 = (inr v, w1)
             /\ truthy v = true
             /\ TokenManager.get_token tm token_id w1 = (inr (Some t), w2)
             /\ admin.token resp
                = Some (admin.mk_token_info (Token.id t) (Token.email t)
                          (option_map (Datetime.isoformat dt) (Token.at_expires t)))).
Proof.
  cbv zeta.
  remember (admin.refresh_at cfg tm dt token_id w) as out eqn:Hout.
  unfold admin.refresh_at in Hout. unfold bind at 1 in Hout.
  unfold admin.log_refresh_request in *.
  destruct (log_info_returns cfg dt
              ("[API] 手动刷新 AT 请求: token_id=" ++ string_of_Z token_id
               ++ ", captcha_method=" ++ Config.captcha_method cfg)%string w)
    as (w0 & Hlog & _).
  rewrite Hlog in *. simpl snd.
  unfold try_except, bind in Hout.
  destruct (TokenManager._refresh_at tm token_id w0) as [[e|v] w1] eqn:Hrefresh.
  - (* the refresh raises *)
    split; [intros v w1' H; discriminate|].
    split; [|intros resp w' H].
    + intros e0 w1' H. injection H as <- <-.
      destruct (is_Exception e) eqn:Hex.
      * destruct (is_HTTPException e) eqn:Hhttp.
        -- unfold raise in Hout. subst out. do 2 eexists.
           split; [reflexivity|]. split; [reflexivity|]. intros; discriminate.
        -- step_log Hout. unfold raise in Hout. subst out. do 2 eexists.
           split; [reflexivity|]. split; [discriminate|]. eauto.
      * subst out. do 2 eexists. split; [reflexivity|]. split.
        -- intros Hhttp. destruct e as [[] ?|]; discriminate.
        -- intros; discriminate.
    + destruct (is_Exception e); [|congruence].
      destruct (is_HTTPException e).
      * unfold raise in Hout. congruence.
      * step_log Hout. unfold raise in Hout. congruence.
  - destruct (truthy v) eqn:Hv.
    + (* the refresh succeeded *)
      split; [intros v0 w1' H; injection H as <- <-; congruence|].
      split; [intros e w1' H; discriminate|].
      intros resp w' H.
      destruct (TokenManager.get_token tm token_id w1) as [[e|updated] w2] eqn:Hget.
      * destruct (is_Exception e); [|congruence].
        destruct (is_HTTPException e); [unfold raise in Hout; congruence|].
        step_log Hout. unfold raise in Hout. congruence.
      * step_log Hout.
        destruct updated as [t|].
        -- unfold ret in Hout. rewrite H in Hout. injection Hout as -> ->. simpl.
           split; [reflexivity|]. exists v, w1, t, w2. auto.
        -- unfold raise in Hout. simpl in Hout. step_log Hout.
           unfold raise in Hout. congruence.
    + (* the refresh gave up *)
      step_log Hout. unfold raise in Hout. simpl in Hout.
      split; [intros v0 w1' H _; subst out; eauto|].
      split; [intros e w1' H; discriminate|].
      intros resp w' H. congruence.
Qed.

(** The sample token manager gives up on credential 2: the endpoint answers
    500. *)
Lemma refresh_at_never_pretends_witness :
  exists detail w',
    admin.refresh_at Samples.cfg Samples.rejecting Samples.iso 2 (Samples.quiet Samples.pool)
    = (inl (HTTPException 500 detail), w').
Proof.
  destruct (refresh_at_never_pretends Samples.cfg Samples.rejecting Samples.iso 2
              (Samples.quiet Samples.pool)) as (Hfalse & _).
  exact (Hfalse (PyBool false) (Samples.quiet Samples.pool) eq_refl eq_refl).
Defined.

(* ===================================================================== *)
(** * Properties of the auto-unban task *)
(* ===================================================================== *)

(** ** C9 *)

Lemma auto_unban_task_running_upto (n : nat) :
  forall awaits,
    (List.length awaits <= n)%nat ->
    forallb main.no_base_exception awaits = true ->
    snd (main.auto_unban_task awaits) = main.pending
    /\ main.hourly (fst (main.auto_unban_task awaits)) = true.
Proof.
  induction n as [|n IH]; intros awaits Hlen Hok.
  - destruct awaits; [simpl; auto | simpl in Hlen; lia].
  - destruct awaits as [|[|e] rest]; [simpl; auto | |].
    + destruct rest as [|[|e] rest]; [simpl; auto | |].
      * simpl in Hlen, Hok.
        destruct (IH rest) as [Hs Ht]; [lia | exact Hok |].
        simpl. destruct (main.auto_unban_task rest) as [trace s]. simpl in *. auto.
      * simpl in Hlen, Hok. apply andb_prop in Hok. destruct Hok as [He Hok].
        destruct (IH rest) as [Hs Ht]; [lia | exact Hok |].
        simpl. rewrite He.
        destruct (main.auto_unban_task rest) as [trace s]. simpl in *. auto.
    + simpl in Hlen, Hok. apply andb_prop in Hok. destruct Hok as [He Hok].
      destruct (IH rest) as [Hs Ht]; [lia | exact Hok |].
      simpl. rewrite He.
      destruct (main.auto_unban_task rest) as [trace s]. simpl in *. auto.
Qed.

(** Resumed with returns and [Exception]s only, the task is still pending,
    and all it has done is sleep 3600 seconds before each sweep. *)
Lemma auto_unban_task_running (awaits : list main.outcome) :
  forallb main.no_base_exception awaits = true ->
  snd (main.auto_unban_task awaits) = main.pending
  /\ main.hourly (fst (main.auto_unban_task awaits)) = true.
Proof. apply (auto_unban_task_running_upto (List.length awaits)). lia. Qed.

(** Hour after hour the sweep is called, whatever [Exception]s the sweeps
    before it raised. *)
Lemma auto_unban_task_sweeps (sweeps : list main.outcome) :
  forallb main.no_base_exception sweeps = true ->
  main.sweeps_in (fst (main.auto_unban_task (main.hours sweeps))) = List.length sweeps.
Proof.
  induction sweeps as [|[|e] sweeps IH]; simpl; intros Hok; [reflexivity | |].
  - specialize (IH Hok).
    destruct (main.auto_unban_task (main.hours sweeps)) as [trace s].
    simpl in *. now rewrite IH.
  - apply andb_prop in Hok. destruct Hok as [He Hok]. specialize (IH Hok).
    rewrite He.
    destruct (main.auto_unban_task (main.hours sweeps)) as [trace s].
    simpl in *. now rewrite IH.
Qed.

Lemma auto_unban_task_cancelled_upto (n : nat) :
  forall awaits,
    (List.length awaits <= n)%nat ->
    forallb main.no_base_exception awaits = true ->
    snd (main.auto_unban_task (awaits ++ [main.raises (Raised CancelledError "")]))
    = main.ended (Raised CancelledError "").
Proof.
  induction n as [|n IH]; intros awaits Hlen Hok.
  - destruct awaits; [reflexivity | simpl in Hlen; lia].
  - destruct awaits as [|[|e] rest]; [reflexivity | |].
    + destruct rest as [|[|e] rest]; [reflexivity | |].
      * simpl in Hlen, Hok. specialize (IH rest ltac:(lia) Hok).
        simpl.
        destruct (main.auto_unban_task (rest ++ [main.raises (Raised CancelledError "")])).
        exact IH.
      * simpl in Hlen, Hok. apply andb_prop in Hok. destruct Hok as [He Hok].
        specialize (IH rest ltac:(lia) Hok).
        simpl. rewrite He.
        destruct (main.auto_unban_task (rest ++ [main.raises (Raised CancelledError "")])).
        exact IH.
    + simpl in Hlen, Hok. apply andb_prop in Hok. destruct Hok as [He Hok].
      specialize (IH rest ltac:(lia) Hok).
      simpl. rewrite He.
      destruct (main.auto_unban_task (rest ++ [main.raises (Raised CancelledError "")])).
      exact IH.
Qed.

(** C9 fails as stated: when [stop_cleanup_task] raises, the shutdown leaves
    by that exception before it reaches [cancel], and the task, one hour
    old here, is pending as it was. *)
Lemma auto_unban_task_left_pending :
  main.done (main.hours [main.returns]) = false
  /\ main.shutdown (main.raises (Raised RuntimeError "cleanup failed"))
       (main.hours [main.returns])
     = (main.raised (Raised RuntimeError "cleanup failed"), main.hours [main.returns])
  /\ main.done (snd (main.shutdown (main.raises (Raised RuntimeError "cleanup failed"))
                       (main.hours [main.returns]))) = false.
Proof. repeat split. Qed.

(** C9, amended.  (1) The task created at startup is pending.  (2) As long
    as its awaits return or raise an [Exception], the task stays pending,
    and its trace is a sleep of 3600 seconds before every sweep and no other
    sleep.  (3) After [n] hours it has called the sweep [n] times, whichever
    of the sweeps raised an [Exception].  (4) At shutdown, when the cleanup
    task has been stopped without an exception, the handle is cancelled:
    [CancelledError] ends the task, the handle is done, and the wait for it
    completes.  (5) When stopping the cleanup task raises, the shutdown
    leaves by that exception and the handle is neither cancelled nor
    awaited: the task is pending as before. *)
Theorem auto_unban_task_hourly :
  main.done main.create_task = false
  /\ (forall awaits,
         forallb main.no_base_exception awaits = true ->
         snd (main.auto_unban_task awaits) = main.pending
         /\ main.hourly (fst (main.auto_unban_task awaits)) = true)
  /\ (forall sweeps,
         forallb main.no_base_exception sweeps = true ->
         main.sweeps_in (fst (main.auto_unban_task (main.hours sweeps))) = List.length sweeps)
  /\ (forall handle,
         forallb main.no_base_exception handle = true ->
         main.shutdown main.returns handle
         = (main.completed, handle ++ [main.raises (Raised CancelledError "")])
         /\ main.done (handle ++ [main.raises (Raised CancelledError "")]) = true)
  /\ (forall e handle,
         forallb main.no_base_exception handle = true ->
         main.shutdown (main.raises e) handle = (main.raised e, handle)
         /\ main.done handle = false).
Proof.
  split; [reflexivity|].
  split; [exact auto_unban_task_running|].
  split; [exact auto_unban_task_sweeps|].
  split.
  - intros handle Hok.
    pose proof (auto_unban_task_running handle Hok) as [Hpending _].
    pose proof (auto_unban_task_cancelled_upto (List.length handle) handle (le_n _) Hok)
      as Hend.
    unfold main.shutdown, main.cancel, main.done.
    rewrite Hpending, Hend. split; reflexivity.
  - intros e handle Hok.
    pose proof (auto_unban_task_running handle Hok) as [Hpending _].
    split; [reflexivity|]. unfold main.done. now rewrite Hpending.
Qed.

(** Three hours in which the second sweep raises: three sweeps are called,
    the task is pending, and the shutdown that follows ends it when the
    cleanup task stops without an exception. *)
Lemma auto_unban_task_hourly_witness :
  main.sweeps_in
    (fst (main.auto_unban_task
            (main.hours [main.returns; main.raises (Raised RuntimeError "db down");
                         main.returns]))) = 3%nat
  /\ snd (main.auto_unban_task
            (main.hours [main.returns; main.raises (Raised RuntimeError "db down");
                         main.returns])) = main.pending
  /\ fst (main.shutdown main.returns
            (main.hours [main.returns; main.raises (Raised RuntimeError "db down");
                         main.returns])) = main.completed.
Proof.
  destruct auto_unban_task_hourly as (_ & Hrun & Hsweeps & Hstop & _).
  split; [|split].
  - exact (Hsweeps [main.returns; main.raises (Raised RuntimeError "db down");
                    main.returns] eq_refl).
  - exact (proj1 (Hrun (main.hours [main.returns;
                                    main.raises (Raised RuntimeError "db down");
                                    main.returns]) eq_refl)).
  - rewrite (proj1 (Hstop (main.hours [main.returns;
                                       main.raises (Raised RuntimeError "db down");
                                       main.returns]) eq_refl)).
    reflexivity.
Defined.

(* ===================================================================== *)
(** * Further properties of the store *)
(* ===================================================================== *)

(** ** [get_active_tokens]: who is listed, and in which order *)

Lemma where_is_active_true (r : Token.t) :
  where_is_active r = true <-> Token.is_active r = Some true.
Proof.
  unfold where_is_active. destruct (Token.is_active r) as [[|]|]; split; congruence.
Qed.

(** When [get_active_tokens] returns, the database is untouched; the list
    holds the rows whose [is_active] is true, each as often as the table
    does, and no others (a NULL flag does not count as active); and a
    credential used earlier never stands behind one used later. *)
Theorem get_active_tokens_lists_active (w w' : world) (rows : list Token.t) :
  get_active_tokens w = (inr rows, w') ->
  store w' = store w
  /\ Permutation rows (filter where_is_active (tokens (store w)))
  /\ (forall r, In r rows <-> In r (tokens (store w)) /\ Token.is_active r = Some true)
  /\ (forall l1 l2 a b ta tb,
         rows = l1 ++ b :: l2 ->
         Token.last_used_at a = Some ta ->
         Token.last_used_at b = Some tb ->
         micros ta < micros tb ->
         ~ In a l2).
Proof.
  intros Hrun.
  pose proof (get_active_tokens_answers w rows w' Hrun) as Hans.
  unfold get_active_tokens in Hrun. apply conn_run_inr in Hrun.
  destruct Hrun as [Hrun _]. unfold sql_select_active_tokens, query in Hrun.
  injection Hrun as _ Hstore.
  split; [now symmetry|]. split; [exact (proj1 Hans)|]. split.
  - intros r. destruct Hans as [Hperm _]. split.
    + intros Hin. apply (Permutation_in _ Hperm) in Hin.
      apply filter_In in Hin. now rewrite <- where_is_active_true.
    + intros [Hin Hact]. apply (Permutation_in _ (Permutation_sym Hperm)).
      apply filter_In. now rewrite where_is_active_true.
  - intros l1 l2 a b ta tb. now apply (longer_idle_ranked_first (store w)).
Qed.

Lemma get_active_tokens_lists_active_witness :
  exists rows,
    Permutation rows [Samples.fresh; Samples.idle; Samples.busy]
    /\ forall l1 l2, rows = l1 ++ Samples.busy :: l2 -> ~ In Samples.idle l2.
Proof.
  destruct (get_active_tokens_lists_active (Samples.quiet Samples.pool)
              (Samples.quiet Samples.pool) [Samples.idle; Samples.busy; Samples.fresh]
              eq_refl) as (_ & Hperm & _ & Horder).
  eexists. split; [exact Hperm|].
  intros l1 l2 Hrows.
  apply (Horder l1 l2 Samples.idle Samples.busy
           (mk_datetime 1762204500000000 None) (mk_datetime 1762205100000000 None) Hrows
           eq_refl eq_refl).
  reflexivity.
Defined.

(** ** Integrity: keys and references *)

Import Integrity.

Lemma distinct_Z_NoDup (l : list Z) : distinct Z.eqb l = true -> NoDup l.
Proof.
  induction l as [|x l IH]; simpl; intros H; [constructor|].
  apply andb_prop in H. destruct H as [Hx Hl].
  constructor; [|auto].
  intros Hin. apply negb_true_iff in Hx.
  assert (existsb (Z.eqb x) l = true); [|congruence].
  apply existsb_exists. exists x. split; [exact Hin | apply Z.eqb_refl].
Qed.

Lemma has_token_in (i : Z) (rows : list Token.t) :
  has_token i rows = true <-> In i (map Token.id rows).
Proof.
  unfold has_token. rewrite existsb_exists, in_map_iff. split.
  - intros (r & Hin & Heq). apply Z.eqb_eq in Heq. eauto.
  - intros (r & Heq & Hin). exists r. split; [exact Hin | now apply Z.eqb_eq].
Qed.

Lemma filter_keeps_distinct_id (keep : Token.t -> bool) (rows : list Token.t) :
  NoDup (map Token.id rows) -> NoDup (map Token.id (filter keep rows)).
Proof.
  intros Hrows. induction rows as [|r rows IH]; simpl; [constructor|].
  inversion Hrows as [|? ? Hfresh Hrest]; subst.
  destruct (keep r); simpl; [|auto].
  constructor; [|auto].
  intros Hin. apply Hfresh.
  apply in_map_iff in Hin. destruct Hin as (r' & Hid & Hin).
  apply filter_In in Hin. apply in_map_iff. exists r'. tauto.
Qed.

Lemma ids_unique_kept_same (d d' : db) : tokens d' = tokens d -> ids_unique_kept d d'.
Proof. unfold ids_unique_kept, ids_unique. now intros ->. Qed.

Lemma ids_unique_kept_run (clk : clock) (c : call) : keeps ids_unique_kept (run clk c).
Proof.
  apply keeps_run;
    try (intros; intros d; apply ids_unique_kept_same;
         first [ apply sql_insert_token_stats_tokens
               | apply sql_delete_token_stats_tokens
               | apply sql_delete_projects_of_frame
               | apply sql_insert_project_frame
               | apply sql_delete_project_frame
               | apply sql_insert_task_frame
               | apply sql_insert_request_log_frame
               | apply sql_update_token_stats_tokens
               | reflexivity ]).
  - intros d Hd. exact Hd.
  - intros d1 d2 d3 H12 H23 Hd. auto.
  - (* INSERT INTO tokens *)
    intros clk0 token d. unfold sql_insert_token, violation.
    repeat break_if; simpl; try now apply ids_unique_kept_same.
    unfold ids_unique_kept, ids_unique. simpl. rewrite map_app. simpl. intros Hd.
    apply NoDup_rev in Hd. rewrite <- (rev_involutive (_ ++ _)). apply NoDup_rev.
    rewrite rev_app_distr. simpl. constructor; [|exact Hd].
    rewrite <- in_rev. intros Hin. apply has_token_in in Hin. congruence.
  - (* UPDATE tokens *)
    intros updates token_id d. unfold sql_update_tokens, violation.
    destruct (bind_updates updates) as [e|sets]; [now apply ids_unique_kept_same|].
    repeat break_if; simpl; try now apply ids_unique_kept_same.
    intros _. unfold ids_unique. simpl.
    apply distinct_Z_NoDup. now apply negb_false_iff.
  - (* DELETE FROM tokens *)
    intros token_id d. unfold sql_delete_token, int4_param, violation.
    repeat break_if; simpl; try now apply ids_unique_kept_same.
    unfold ids_unique_kept, ids_unique. simpl. apply filter_keeps_distinct_id.
Qed.

Lemma references_resolve_spec (rows : list Token.t) (d : db) :
  references_resolve rows d = true <->
  (forall s, In s (token_stats d) -> has_token (TokenStats.token_id s) rows = true)
  /\ (forall p, In p (projects d) -> has_token (Project.token_id p) rows = true)
  /\ (forall t, In t (tasks d) -> has_token (Task.token_id t) rows = true)
  /\ (forall l i, In l (request_logs d) -> RequestLog.token_id l = Some i ->
                  has_token i rows = true).
Proof.
  unfold references_resolve. rewrite !andb_true_iff, !forallb_forall. split.
  - intros (((Hs & Hp) & Ht) & Hl). repeat split; auto.
    intros l i Hin Hi. specialize (Hl l Hin). now rewrite Hi in Hl.
  - intros (Hs & Hp & Ht & Hl). repeat split; auto.
    intros l Hin. destruct (RequestLog.token_id l) as [i|] eqn:Hi; eauto.
Qed.

Lemma references_kept_tables (d d' : db) :
  tokens d' = tokens d -> token_stats d' = token_stats d -> projects d' = projects d ->
  tasks d' = tasks d -> request_logs d' = request_logs d ->
  references_kept d d'.
Proof.
  unfold references_kept, references_hold, references_resolve.
  now intros -> -> -> -> ->.
Qed.

Lemma has_token_app (i : Z) (rows : list Token.t) (r : Token.t) :
  has_token i rows = true -> has_token i (rows ++ [r]) = true.
Proof.
  unfold has_token. rewrite existsb_app. now intros ->.
Qed.

Lemma has_token_filter (i token_id : Z) (rows : list Token.t) :
  i <> token_id ->
  has_token i (filter (fun r => negb (Token.id r =? token_id)) rows) = has_token i rows.
Proof.
  intros Hne. unfold has_token.
  induction rows as [|r rows IH]; simpl; [reflexivity|].
  destruct (Token.id r =? token_id) eqn:Hr; simpl.
  - rewrite IH. apply Z.eqb_eq in Hr.
    assert ((Token.id r =? i) = false) as -> by (apply Z.eqb_neq; congruence).
    reflexivity.
  - now rewrite IH.
Qed.

Lemma filter_id_absent (token_id : Z) (rows : list Token.t) :
  has_token token_id rows = false ->
  filter (fun r => negb (Token.id r =? token_id)) rows = rows.
Proof.
  unfold has_token. induction rows as [|r rows IH]; simpl; [reflexivity|].
  intros H. apply orb_false_iff in H. destruct H as [Hr Hrows].
  rewrite Hr. simpl. now rewrite IH.
Qed.

Lemma referenced_false (token_id : Z) (d : db) :
  referenced token_id d = false ->
  (forall s, In s (token_stats d) -> TokenStats.token_id s <> token_id)
  /\ (forall p, In p (projects d) -> Project.token_id p <> token_id)
  /\ (forall t, In t (tasks d) -> Task.token_id t <> token_id)
  /\ (forall l, In l (request_logs d) -> RequestLog.token_id l <> Some token_id).
Proof.
  unfold referenced. rewrite !orb_false_iff. intros (((Hs & Hp) & Ht) & Hl).
  repeat split; intros x Hin Heq.
  - assert (existsb (fun s => TokenStats.token_id s =? token_id) (token_stats d) = true);
      [|congruence].
    apply existsb_exists. exists x. split; [exact Hin | now apply Z.eqb_eq].
  - assert (existsb (fun p => Project.token_id p =? token_id) (projects d) = true);
      [|congruence].
    apply existsb_exists. exists x. split; [exact Hin | now apply Z.eqb_eq].
  - assert (existsb (fun t => Task.token_id t =? token_id) (tasks d) = true);
      [|congruence].
    apply existsb_exists. exists x. split; [exact Hin | now apply Z.eqb_eq].
  - assert (existsb (fun l => match RequestLog.token_id l with
                              | Some i => i =? token_id
                              | None => false
                              end) (request_logs d) = true); [|congruence].
    apply existsb_exists. exists x. split; [exact Hin|].
    rewrite Heq. apply Z.eqb_refl.
Qed.

Ltac same_tables := apply references_kept_tables; reflexivity.

Lemma references_kept_run (clk : clock) (c : call) : keeps references_kept (run clk c).
Proof.
  apply keeps_run.
  - intros d Hd. exact Hd.
  - intros d1 d2 d3 H12 H23 Hd. auto.
  - (* INSERT INTO tokens *)
    intros clk0 token d. unfold sql_insert_token, violation.
    repeat break_if; simpl; try same_tables.
    unfold references_kept, references_hold. simpl. rewrite !references_resolve_spec.
    simpl. intros (Hs & Hp & Ht & Hl).
    repeat split; intros; apply has_token_app; eauto.
  - (* INSERT INTO token_stats *)
    intros token_id d. unfold sql_insert_token_stats, violation.
    repeat break_if; simpl; try same_tables.
    unfold references_kept, references_hold. simpl. rewrite !references_resolve_spec.
    simpl. intros (Hs & Hp & Ht & Hl).
    repeat split; auto.
    intros s Hin. apply in_app_or in Hin. destruct Hin as [Hin | [<- | []]]; [auto|].
    simpl. now apply negb_false_iff.
  - (* UPDATE tokens *)
    intros updates token_id d. unfold sql_update_tokens, violation.
    destruct (bind_updates updates) as [e|sets]; [same_tables|].
    repeat break_if; simpl; try same_tables.
    intros _. unfold references_hold. simpl.
    match goal with H : negb (references_resolve _ _) = false |- _ =>
      apply negb_false_iff in H; rewrite references_resolve_spec in H end.
    rewrite references_resolve_spec. simpl. assumption.
  - (* DELETE FROM token_stats *)
    intros token_id d. unfold sql_delete_token_stats, int4_param, violation.
    repeat break_if; simpl; try same_tables.
    unfold references_kept, references_hold. simpl. rewrite !references_resolve_spec.
    simpl. intros (Hs & Hp & Ht & Hl).
    repeat split; auto. intros s Hin. apply filter_In in Hin. now apply Hs.
  - (* DELETE FROM projects WHERE token_id *)
    intros token_id d. unfold sql_delete_projects_of, int4_param, violation.
    repeat break_if; simpl; try same_tables.
    unfold references_kept, references_hold. simpl. rewrite !references_resolve_spec.
    simpl. intros (Hs & Hp & Ht & Hl).
    repeat split; auto. intros p Hin. apply filter_In in Hin. now apply Hp.
  - (* DELETE FROM tokens *)
    intros token_id d. unfold sql_delete_token, int4_param, violation.
    destruct (int4_ok token_id); [|same_tables].
    destruct (has_token token_id (tokens d)) eqn:Hhas; simpl.
    + destruct (referenced token_id d) eqn:Href; simpl; [same_tables|].
      apply referenced_false in Href. destruct Href as (Rs & Rp & Rt & Rl).
      unfold references_kept, references_hold. simpl. rewrite !references_resolve_spec.
      simpl. intros (Hs & Hp & Ht & Hl).
      repeat split; intros.
      * rewrite has_token_filter; auto.
      * rewrite has_token_filter; auto.
      * rewrite has_token_filter; auto.
      * rewrite has_token_filter; eauto.
        intros ->. eapply Rl; eauto.
    + rewrite (filter_id_absent token_id (tokens d) Hhas).
      apply references_kept_tables; reflexivity.
  - (* INSERT INTO projects *)
    intros clk0 project d. unfold sql_insert_project, violation.
    repeat break_if; simpl; try same_tables.
    unfold references_kept, references_hold. simpl. rewrite !references_resolve_spec.
    simpl. intros (Hs & Hp & Ht & Hl).
    repeat split; auto.
    intros p Hin. apply in_app_or in Hin. destruct Hin as [Hin | [<- | []]]; [auto|].
    simpl. now apply negb_false_iff.
  - (* DELETE FROM projects WHERE project_id *)
    intros project_id d. unfold sql_delete_project.
    unfold references_kept, references_hold. simpl. rewrite !references_resolve_spec.
    simpl. intros (Hs & Hp & Ht & Hl).
    repeat split; auto. intros p Hin. apply filter_In in Hin. now apply Hp.
  - (* INSERT INTO tasks *)
    intros clk0 task d. unfold sql_insert_task, violation.
    repeat break_if; simpl; try same_tables.
    unfold references_kept, references_hold. simpl. rewrite !references_resolve_spec.
    simpl. intros (Hs & Hp & Ht & Hl).
    repeat split; auto.
    intros t Hin. apply in_app_or in Hin. destruct Hin as [Hin | [<- | []]]; [auto|].
    simpl. now apply negb_false_iff.
  - (* INSERT INTO request_logs *)
    intros clk0 log d. unfold sql_insert_request_log, violation.
    repeat break_if; simpl; try same_tables.
    unfold references_kept, references_hold. simpl. rewrite !references_resolve_spec.
    simpl. intros (Hs & Hp & Ht & Hl).
    repeat split; auto.
    intros l i Hin Hi. apply in_app_or in Hin. destruct Hin as [Hin | [<- | []]]; [eauto|].
    simpl in Hi.
    rewrite Hi in *.
    match goal with
    | H : negb (has_token i _) = false |- _ => now apply negb_false_iff in H
    end.
  - (* DELETE FROM request_logs *)
    intros d. unfold references_kept, references_hold. simpl.
    rewrite !references_resolve_spec. simpl. intros (Hs & Hp & Ht & Hl).
    repeat split; auto; intros l i [].
  - (* UPDATE token_stats SET consecutive_error_count = 0 *)
    intros token_id d.
    destruct (sql_update_token_stats_cases token_id set_no_consecutive_error (fun _ => [])
                (fun s => eq_refl) d) as [(e & ->) | (d' & -> & _ & Hs' & Ht' & Hp' & Hk' & Hl')];
      simpl; [intros H; exact H|].
    unfold references_kept, references_hold. rewrite !references_resolve_spec.
    rewrite Ht', Hp', Hk', Hl', Hs'. intros (Hs & Hp & Ht & Hl).
    repeat split; auto.
    intros s Hin. apply in_map_iff in Hin. destruct Hin as (s0 & <- & Hin).
    destruct (TokenStats.token_id s0 =? token_id); simpl; auto.
  - (* UPDATE token_stats *)
    intros token_id set written Hset d.
    destruct (sql_update_token_stats_cases token_id set written Hset d)
      as [(e & ->) | (d' & -> & _ & Hs' & Ht' & Hp' & Hk' & Hl')];
      simpl; [intros H; exact H|].
    unfold references_kept, references_hold. rewrite !references_resolve_spec.
    rewrite Ht', Hp', Hk', Hl', Hs'. intros (Hs & Hp & Ht & Hl).
    repeat split; auto.
    intros s Hin. apply in_map_iff in Hin. destruct Hin as (s0 & <- & Hin).
    destruct (TokenStats.token_id s0 =? token_id); simpl; [rewrite Hset|]; auto.
Qed.

(** ** Integrity: one row of statistics per credential *)

Section Kept_by_calls.

Variable R : db -> db -> Prop.
Hypothesis R_refl : forall d, R d d.
Hypothesis R_trans : forall d1 d2 d3, R d1 d2 -> R d2 d3 -> R d1 d3.

Hypothesis add_token_kept : forall clk token, keeps R (add_token clk token).
Hypothesis update_tokens :
  forall updates token_id, statement_keeps R (sql_update_tokens updates token_id).
Hypothesis delete_token_stats :
  forall token_id, statement_keeps R (sql_delete_token_stats token_id).
Hypothesis delete_projects_of :
  forall token_id, statement_keeps R (sql_delete_projects_of token_id).
Hypothesis delete_token_row : forall token_id, statement_keeps R (sql_delete_token token_id).
Hypothesis insert_project : forall clk project, statement_keeps R (sql_insert_project clk project).
Hypothesis delete_project_row :
  forall project_id, statement_keeps R (sql_delete_project project_id).
Hypothesis insert_task : forall clk task, statement_keeps R (sql_insert_task clk task).
Hypothesis insert_request_log :
  forall clk log, statement_keeps R (sql_insert_request_log clk log).
Hypothesis delete_request_logs :
  statement_keeps R (fun d => (@inr exn unit tt, with_request_logs [] d)).
Hypothesis update_token_stats :
  forall token_id set written,
    (forall s, TokenStats.token_id (set s) = TokenStats.token_id s) ->
    statement_keeps R (sql_update_token_stats token_id set written).

(** A relation kept by [add_token] as a whole and by every other statement
    is kept by every call. *)
Lemma keeps_run_calls (clk : clock) (c : call) : keeps R (run clk c).
Proof.
  pose proof (fun A => @keeps_conn_run R R_refl A) as Hrun.
  pose proof (fun A => @keeps_ret R R_refl A) as Hret.
  pose proof (fun A B => @keeps_bind R R_trans A B) as Hbind.
  destruct c; simpl.
  - apply Hbind; [apply add_token_kept | intros; apply Hret].
  - unfold update_token.
    destruct (build_updates clk kwargs) as [e|[|u us]];
      [apply (keeps_raise R R_refl) | apply Hret | apply Hrun, update_tokens].
  - unfold delete_token.
    repeat (apply Hbind; [|intros]); apply Hrun; auto.
  - unfold add_project.
    apply Hbind; [apply Hrun; auto | intros; apply Hret].
  - unfold delete_project. apply Hrun; auto.
  - unfold create_task.
    apply Hbind; [apply Hrun; auto | intros; apply Hret].
  - unfold add_request_log. apply Hrun; auto.
  - unfold clear_all_logs. apply Hrun; auto.
  - unfold increment_token_stats.
    repeat break_if; try apply Hret;
      apply (keeps_increment_shape R R_refl R_trans update_token_stats); reflexivity.
  - unfold reset_error_count. apply Hrun. apply update_token_stats. reflexivity.
Qed.

End Kept_by_calls.

Lemma one_stats_row_kept_quiet (d d' : db) :
  token_stats d' = token_stats d -> tokens_id_seq d <= tokens_id_seq d' ->
  one_stats_row_kept d d'.
Proof.
  unfold one_stats_row_kept, one_stats_row. intros -> Hseq [Hnd Hlt]. split; [exact Hnd|].
  eapply Forall_impl; [|exact Hlt]. simpl. intros s Hs. lia.
Qed.

Ltac quiet_on_stats :=
  intros; unfold violation, int4_param;
  repeat break_if; simpl;
  apply one_stats_row_kept_quiet; simpl; solve [reflexivity | lia].

Lemma sql_insert_token_sequence (clk : clock) (token : Token.t) (d : db) :
  token_stats (snd (sql_insert_token clk token d)) = token_stats d
  /\ tokens_id_seq d <= tokens_id_seq (snd (sql_insert_token clk token d))
  /\ forall i, fst (sql_insert_token clk token d) = inr i ->
               i = tokens_id_seq d
               /\ tokens_id_seq (snd (sql_insert_token clk token d)) = tokens_id_seq d + 1.
Proof.
  unfold sql_insert_token, violation.
  repeat break_if; simpl;
    (split; [reflexivity|]); (split; [lia|]);
    intros j Hj; try discriminate; injection Hj as <-; split; reflexivity.
Qed.

Lemma add_token_one_stats_row (clk : clock) (token : Token.t) :
  keeps one_stats_row_kept (add_token clk token).
Proof.
  intros w. unfold add_token, bind.
  destruct (sql_insert_token_sequence clk token (store w)) as (Hstats & Hseq & Hid).
  destruct (conn_run_cases (sql_insert_token clk token) w) as [(e & He & Hs) | (Hr & Hs)].
  - destruct (conn_run (sql_insert_token clk token) w) as [[e'|i] w1]; simpl in *;
      [|discriminate].
    rewrite Hs. intros H; exact H.
  - destruct (conn_run (sql_insert_token clk token) w) as [[e'|i] w1]; simpl in *.
    + rewrite Hs. now apply one_stats_row_kept_quiet.
    + destruct (Hid i (eq_sym Hr)) as [-> Hnext].
      destruct (conn_run_cases (sql_insert_token_stats (tokens_id_seq (store w))) w1)
        as [(e & He & Hs2) | (Hr2 & Hs2)];
        destruct (conn_run (sql_insert_token_stats (tokens_id_seq (store w))) w1)
          as [[e'|[]] w2]; simpl in *; try discriminate.
      1: { rewrite Hs2, Hs. now apply one_stats_row_kept_quiet. }
      all: rewrite Hs2, Hs; unfold sql_insert_token_stats, violation;
        repeat break_if; simpl;
          try (apply one_stats_row_kept_quiet; simpl; [congruence | lia]).
      all: unfold one_stats_row_kept, one_stats_row; simpl; rewrite Hstats, Hnext.
      all: intros [Hnd Hlt]; split.
      all: try (apply Forall_app; split;
                [ eapply Forall_impl; [|exact Hlt]; simpl; intros s Hs0; lia
                | constructor; [simpl; lia | constructor] ]).
      all: rewrite map_app; simpl.
      all: apply NoDup_rev in Hnd; rewrite <- (rev_involutive (_ ++ _)); apply NoDup_rev.
      all: rewrite rev_app_distr; simpl; constructor; [|exact Hnd].
      all: rewrite <- in_rev; intros Hin; apply in_map_iff in Hin.
      all: destruct Hin as (s & Heq & Hin).
      all: rewrite Forall_forall in Hlt; specialize (Hlt s Hin); simpl in Hlt; lia.
Qed.


Lemma one_stats_row_kept_run (clk : clock) (c : call) :
  keeps one_stats_row_kept (run clk c).
Proof.
  apply keeps_run_calls.
  - intros d H. exact H.
  - intros d1 d2 d3 H12 H23 H. auto.
  - apply add_token_one_stats_row.
  - intros updates token_id d. unfold sql_update_tokens.
    destruct (bind_updates updates); [intros H; exact H|]. quiet_on_stats.
  - (* DELETE FROM token_stats *)
    intros token_id d. unfold sql_delete_token_stats, int4_param, violation.
    destruct (int4_ok token_id); simpl; [|intros H; exact H].
    unfold one_stats_row_kept, one_stats_row. simpl. intros [Hnd Hlt]. split.
    + clear Hlt. induction (token_stats d) as [|s l IH]; simpl; [constructor|].
      inversion Hnd as [|? ? Hfresh Hrest]; subst.
      destruct (negb (TokenStats.token_id s =? token_id)); simpl; [|auto].
      constructor; [|auto].
      intros Hin. apply Hfresh. apply in_map_iff in Hin.
      destruct Hin as (s' & Heq & Hin). apply filter_In in Hin.
      apply in_map_iff. exists s'. tauto.
    + rewrite Forall_forall in *. intros s Hin. apply filter_In in Hin. now apply Hlt.
  - intros token_id d. unfold sql_delete_projects_of. quiet_on_stats.
  - intros token_id d. unfold sql_delete_token. quiet_on_stats.
  - intros clk0 project d. unfold sql_insert_project. quiet_on_stats.
  - intros project_id d. unfold sql_delete_project. quiet_on_stats.
  - intros clk0 task d. unfold sql_insert_task. quiet_on_stats.
  - intros clk0 log d. unfold sql_insert_request_log. quiet_on_stats.
  - intros d. quiet_on_stats.
  - (* UPDATE token_stats *)
    intros token_id set written Hset d.
    unfold sql_update_token_stats, int4_param, violation.
    repeat break_if; simpl; try (intros H; exact H).
    unfold one_stats_row_kept, one_stats_row. simpl. intros [Hnd Hlt]. split.
    + rewrite map_map.
      erewrite map_ext; [exact Hnd|].
      intros s. simpl. destruct (TokenStats.token_id s =? token_id); [apply Hset | reflexivity].
    + rewrite Forall_forall in *. intros s Hin. apply in_map_iff in Hin.
      destruct Hin as (s0 & <- & Hin).
      destruct (TokenStats.token_id s0 =? token_id); [rewrite Hset|]; auto.
Qed.

Lemma reachable_ids_unique (d : db) : reachable d -> ids_unique d.
Proof.
  induction 1 as [|d clk c fs out _ IH].
  - constructor.
  - exact (ids_unique_kept_run clk c (mk_world d fs out) IH).
Qed.

Lemma reachable_references_hold (d : db) : reachable d -> references_hold d.
Proof.
  induction 1 as [|d clk c fs out _ IH].
  - reflexivity.
  - exact (references_kept_run clk c (mk_world d fs out) IH).
Qed.

Lemma reachable_one_stats_row (d : db) : reachable d -> one_stats_row d.
Proof.
  induction 1 as [|d clk c fs out _ IH].
  - split; constructor.
  - exact (one_stats_row_kept_run clk c (mk_world d fs out) IH).
Qed.

(** In every database the store can reach, [id] is a key of [tokens], and
    every row of [token_stats], [projects], [tasks] and [request_logs] that
    names a credential names one that exists. *)
Theorem reachable_keys_and_references (d : db) :
  reachable d ->
  NoDup (map Token.id (tokens d))
  /\ (forall s, In s (token_stats d) ->
                exists r, In r (tokens d) /\ Token.id r = TokenStats.token_id s)
  /\ (forall p, In p (projects d) ->
                exists r, In r (tokens d) /\ Token.id r = Project.token_id p)
  /\ (forall t, In t (tasks d) ->
                exists r, In r (tokens d) /\ Token.id r = Task.token_id t)
  /\ (forall l i, In l (request_logs d) -> RequestLog.token_id l = Some i ->
                  exists r, In r (tokens d) /\ Token.id r = i).
Proof.
  intros Hd. split; [exact (reachable_ids_unique d Hd)|].
  pose proof (reachable_references_hold d Hd) as Href.
  unfold references_hold in Href. rewrite references_resolve_spec in Href.
  destruct Href as (Hs & Hp & Ht & Hl).
  assert (Hex : forall i, has_token i (tokens d) = true ->
                          exists r, In r (tokens d) /\ Token.id r = i).
  { intros i Hi. apply existsb_exists in Hi. destruct Hi as (r & Hin & Heq).
    apply Z.eqb_eq in Heq. eauto. }
  repeat split; intros; apply Hex; eauto.
Qed.

Lemma reachable_keys_and_references_witness :
  NoDup (map Token.id (tokens Samples.one_credential))
  /\ forall s, In s (token_stats Samples.one_credential) ->
               exists r, In r (tokens Samples.one_credential)
                         /\ Token.id r = TokenStats.token_id s.
Proof.
  destruct (reachable_keys_and_references Samples.one_credential
              (reachable_call init_db Samples.clk (call_add_token Samples.fresh) [] []
                 reachable_init)) as (Hk & Hs & _).
  split; assumption.
Defined.

(** In every database the store can reach, a credential has at most one row
    in [token_stats]: the row [add_token] created with it. *)
Theorem reachable_single_stats_row (d : db) :
  reachable d ->
  NoDup (map TokenStats.token_id (token_stats d))
  /\ forall s, In s (token_stats d) -> TokenStats.token_id s < tokens_id_seq d.
Proof.
  intros Hd. destruct (reachable_one_stats_row d Hd) as [Hnd Hlt].
  split; [exact Hnd|]. now rewrite Forall_forall in Hlt.
Qed.

Lemma reachable_single_stats_row_witness :
  NoDup (map TokenStats.token_id (token_stats Samples.one_credential)).
Proof.
  exact (proj1 (reachable_single_stats_row Samples.one_credential
                  (reachable_call init_db Samples.clk (call_add_token Samples.fresh) [] []
                     reachable_init))).
Defined.

(** ** [add_token], then [get_token] and [get_token_stats] *)

Lemma find_app_fresh {A : Type} (hit : A -> bool) (l : list A) (a : A) :
  existsb hit l = false -> hit a = true -> find hit (l ++ [a]) = Some a.
Proof.
  induction l as [|x l IH]; simpl; intros Hl Ha.
  - now rewrite Ha.
  - apply orb_false_iff in Hl. destruct Hl as [Hx Hl]. rewrite Hx. auto.
Qed.

Lemma sql_insert_token_inr (clk : clock) (token : Token.t) (d d' : db) (i : Z) :
  sql_insert_token clk token d = (inr i, d') ->
  i = tokens_id_seq d
  /\ int4_ok i = true
  /\ has_token i (tokens d) = false
  /\ token_stats d' = token_stats d
  /\ tokens_id_seq d' = tokens_id_seq d + 1
  /\ tokens d'
     = tokens d
       ++ [Token.mk i (Token.st token) (Token.at_ token)
             (_normalize_dt (Token.at_expires token)) (Token.email token)
             (Token.name token) (Token.remark token) (Token.is_active token)
             (Some (current_timestamp clk)) None (Some 0)
             (Token.credits token) (Token.user_paygate_tier token)
             (Token.current_project_id token) (Token.current_project_name token)
             (Token.image_enabled token) (Token.video_enabled token)
             (Token.image_concurrency token) (Token.video_concurrency token)
             None None].
Proof.
  unfold sql_insert_token, violation.
  repeat break_if; try discriminate.
  intros H; injection H as <- <-. simpl.
  repeat split; auto. now apply negb_false_iff.
Qed.

Lemma sql_insert_token_stats_inr (token_id : Z) (d d' : db) :
  sql_insert_token_stats token_id d = (inr tt, d') ->
  tokens d' = tokens d
  /\ token_stats d'
     = token_stats d
       ++ [TokenStats.mk (token_stats_id_seq d) token_id 0 0 0 0 None None 0 0 0 None 0].
Proof.
  unfold sql_insert_token_stats, violation.
  repeat break_if; try discriminate.
  intros H; injection H as <-. simpl. auto.
Qed.

(** When [add_token] returns an id on a database the store can reach, and
    nothing else intervenes, [get_token] of that id returns the credential
    as it was given, with [at_expires] moved to naive UTC, the creation time
    of the server, no last use and a use count of 0, and [get_token_stats]
    returns its row with every counter at 0. *)
Theorem add_token_then_get (clk : clock) (token : Token.t) (w w' : world) (id : Z) :
  reachable (store w) ->
  add_token clk token w = (inr id, w') ->
  faults w' = [] ->
  exists sid,
    get_token id w'
    = (inr (Some (Token.mk id (Token.st token) (Token.at_ token)
                    (_normalize_dt (Token.at_expires token)) (Token.email token)
                    (Token.name token) (Token.remark token) (Token.is_active token)
                    (Some (current_timestamp clk)) None (Some 0)
                    (Token.credits token) (Token.user_paygate_tier token)
                    (Token.current_project_id token) (Token.current_project_name token)
                    (Token.image_enabled token) (Token.video_enabled token)
                    (Token.image_concurrency token) (Token.video_concurrency token)
                    None None)), w')
    /\ get_token_stats id w'
       = (inr (Some (TokenStats.mk sid id 0 0 0 0 None None 0 0 0 None 0)), w').
Proof.
  intros Hreach Hrun Hf. unfold add_token, bind in Hrun.
  destruct (conn_run (sql_insert_token clk token) w) as [[e|i] w1] eqn:H1; [discriminate|].
  destruct (conn_run (sql_insert_token_stats i) w1) as [[e|[]] w2] eqn:H2; [discriminate|].
  unfold ret in Hrun. injection Hrun as -> ->.
  apply conn_run_inr in H1, H2. destruct H1 as [H1 _], H2 as [H2 _].
  apply sql_insert_token_inr in H1.
  destruct H1 as (Hid & Hfit & Hnew & Hstats & Hseq & Hrows).
  apply sql_insert_token_stats_inr in H2. destruct H2 as (Hrows2 & Hstats2).
  destruct (reachable_one_stats_row (store w) Hreach) as [_ Hlt].
  exists (token_stats_id_seq (store w1)).
  assert (Hw' : w' = mk_world (store w') [] (stdout w')).
  { destruct w'; simpl in *. now subst. }
  split.
  - unfold get_token. erewrite conn_run_returns; [rewrite <- Hw'; reflexivity | exact Hf |].
    unfold int4_param, query. rewrite Hfit. f_equal. f_equal.
    rewrite Hrows2, Hrows. apply find_app_fresh; [exact Hnew | simpl; apply Z.eqb_refl].
  - unfold get_token_stats.
    erewrite conn_run_returns; [rewrite <- Hw'; reflexivity | exact Hf |].
    unfold int4_param, query. rewrite Hfit. f_equal. f_equal.
    rewrite Hstats2, Hstats. apply find_app_fresh; [|simpl; apply Z.eqb_refl].
    apply not_true_is_false. intros Hex. apply existsb_exists in Hex.
    destruct Hex as (s & Hin & Heq). apply Z.eqb_eq in Heq.
    rewrite Forall_forall in Hlt. specialize (Hlt s Hin). simpl in Hlt. lia.
Qed.

Lemma add_token_then_get_witness :
  exists r w',
    get_token 1 (Samples.quiet Samples.one_credential) = (inr (Some r), w')
    /\ Token.st r = "st-fresh"
    /\ Token.last_used_at r = None.
Proof.
  destruct (add_token_then_get Samples.clk Samples.fresh (Samples.quiet init_db)
              (Samples.quiet Samples.one_credential) 1 reachable_init eq_refl eq_refl)
    as (sid & Hget & _).
  do 2 eexists. split; [exact Hget|]. split; reflexivity.
Defined.

(** ** [delete_token] on a credential that is still referenced *)

Lemma existsb_filter_other {A : Type} (p q : A -> bool) (l : list A) :
  existsb p (filter q l) = true -> existsb p l = true.
Proof.
  rewrite !existsb_exists. intros (a & Hin & Hp). apply filter_In in Hin.
  exists a. tauto.
Qed.

(** When a row of [tasks] or [request_logs] points to a credential,
    [delete_token] raises a foreign-key violation at its third statement:
    the credential is still in [tokens], but its rows of [token_stats] and
    [projects] are gone. *)
Theorem delete_token_referenced (token_id : Z) (w : world) :
  faults w = [] ->
  int4_ok token_id = true ->
  (exists r, In r (tokens (store w)) /\ Token.id r = token_id) ->
  (exists t, In t (tasks (store w)) /\ Task.token_id t = token_id)
  \/ (exists l, In l (request_logs (store w)) /\ RequestLog.token_id l = Some token_id) ->
  exists msg w',
    delete_token token_id w = (inl (Raised ForeignKeyViolationError msg), w')
    /\ tokens (store w') = tokens (store w)
    /\ tasks (store w') = tasks (store w)
    /\ request_logs (store w') = request_logs (store w)
    /\ (forall s, In s (token_stats (store w')) -> TokenStats.token_id s <> token_id)
    /\ (forall p, In p (projects (store w')) -> Project.token_id p <> token_id).
Proof.
  intros Hf Hid (r & Hr & Hrid) Href. unfold delete_token, bind.
  erewrite conn_run_returns;
    [| exact Hf | unfold sql_delete_token_stats, int4_param; rewrite Hid; reflexivity].
  erewrite conn_run_returns;
    [| reflexivity | unfold sql_delete_projects_of, int4_param; rewrite Hid; reflexivity].
  unfold conn_run. simpl faults. cbv iota. simpl store.
  unfold sql_delete_token, int4_param. rewrite Hid. simpl tokens.
  assert (Hhas : has_token token_id (tokens (store w)) = true).
  { apply has_token_in. apply in_map_iff. eauto. }
  rewrite Hhas.
  match goal with
  | |- context [referenced token_id ?d] =>
      assert (Hrefd : referenced token_id d = true)
  end.
  { unfold referenced. simpl.
    destruct Href as [(t & Ht & Htid) | (l & Hl & Hlid)].
    - assert (existsb (fun t0 => Task.token_id t0 =? token_id) (tasks (store w)) = true)
        as -> by (apply existsb_exists; exists t; split; [exact Ht | now apply Z.eqb_eq]).
      now rewrite !orb_true_r.
    - match goal with
      | |- _ || existsb ?f _ = true =>
          assert (existsb f (request_logs (store w)) = true) as ->
      end.
      { apply existsb_exists. exists l. split; [exact Hl|].
        rewrite Hlid. apply Z.eqb_refl. }
      now rewrite !orb_true_r. }
  rewrite Hrefd. simpl. unfold violation.
  do 2 eexists. split; [reflexivity|]. simpl.
  repeat split; intros x Hx; apply filter_In in Hx; destruct Hx as [_ Hx];
    apply negb_true_iff, Z.eqb_neq in Hx; exact Hx.
Qed.

Lemma delete_token_referenced_witness :
  exists msg w',
    delete_token 2 (Samples.quiet Samples.pool_with_task)
    = (inl (Raised ForeignKeyViolationError msg), w')
    /\ In Samples.idle (tokens (store w'))
    /\ forall s, In s (token_stats (store w')) -> TokenStats.token_id s <> 2.
Proof.
  destruct (delete_token_referenced 2 (Samples.quiet Samples.pool_with_task) eq_refl eq_refl)
    as (msg & w' & Hrun & Ht & _ & _ & Hs & _).
  - exists Samples.idle. split; [simpl; auto | reflexivity].
  - left. eexists. split; [left; reflexivity | reflexivity].
  - exists msg, w'. split; [exact Hrun|]. split; [|exact Hs].
    rewrite Ht. simpl. auto.
Defined.

(** ** Counters of a credential without a row of statistics *)

Lemma with_token_stats_same (d : db) : with_token_stats (token_stats d) d = d.
Proof. now destruct d. Qed.

Lemma map_no_hit (token_id : Z) (set : TokenStats.t -> TokenStats.t)
    (rows : list TokenStats.t) :
  find (fun s => TokenStats.token_id s =? token_id) rows = None ->
  map (fun s => if TokenStats.token_id s =? token_id then set s else s) rows = rows.
Proof.
  induction rows as [|s rows IH]; simpl; [reflexivity|].
  destruct (TokenStats.token_id s =? token_id); [discriminate|].
  intros H. now rewrite IH.
Qed.

Lemma forallb_no_hit (token_id : Z) (check : TokenStats.t -> bool)
    (rows : list TokenStats.t) :
  find (fun s => TokenStats.token_id s =? token_id) rows = None ->
  forallb (fun s => negb (TokenStats.token_id s =? token_id) || check s) rows = true.
Proof.
  induction rows as [|s rows IH]; simpl; [reflexivity|].
  destruct (TokenStats.token_id s =? token_id); [discriminate|].
  intros H. simpl. auto.
Qed.

Lemma sql_update_token_stats_no_row (token_id : Z) (set : TokenStats.t -> TokenStats.t)
    (written : TokenStats.t -> list Z) (d : db) :
  int4_ok token_id = true ->
  stats_row token_id d = None ->
  sql_update_token_stats token_id set written d = (inr tt, d).
Proof.
  intros Hid Hrow. unfold sql_update_token_stats, int4_param. rewrite Hid.
  rewrite (forallb_no_hit token_id (fun s => forallb int4_ok (written (set s))) _ Hrow).
  rewrite (map_no_hit token_id set _ Hrow). now rewrite with_token_stats_same.
Qed.

(** For a credential that has no row in [token_stats], the three increments
    and [reset_error_count] return normally and leave the world exactly as
    it was: the UPDATE matches nothing, and no row is created. *)
Theorem counters_without_stats_row (clk : clock) (token_id : Z) (w : world) :
  faults w = [] ->
  int4_ok token_id = true ->
  stats_row token_id (store w) = None ->
  (forall k, increment_token_stats clk token_id (stat_type k) w = (inr tt, w))
  /\ reset_error_count token_id w = (inr tt, w).
Proof.
  intros Hf Hid Hrow.
  assert (Hw : mk_world (store w) [] (stdout w) = w).
  { destruct w; simpl in *. now subst. }
  assert (Hsel : sql_select_today_date token_id (store w) = (inr None, store w)).
  { unfold sql_select_today_date, int4_param, query. rewrite Hid.
    fold (stats_row token_id (store w)). now rewrite Hrow. }
  assert (Hshape : forall set_new set_same written,
             increment_shape clk token_id set_new set_same written w = (inr tt, w)).
  { intros. unfold increment_shape, bind.
    rewrite (conn_run_returns _ _ _ _ Hf Hsel). rewrite Hw. unfold rolled_over.
    erewrite conn_run_returns;
      [rewrite Hw; reflexivity | exact Hf | now apply sql_update_token_stats_no_row]. }
  split.
  - intros []; simpl; apply Hshape.
  - unfold reset_error_count.
    erewrite conn_run_returns;
      [rewrite Hw; reflexivity | exact Hf | now apply sql_update_token_stats_no_row].
Qed.

Lemma counters_without_stats_row_witness :
  increment_token_stats Samples.clk 2 "error" (Samples.quiet Samples.pool_without_stats)
  = (inr tt, Samples.quiet Samples.pool_without_stats).
Proof.
  exact (proj1 (counters_without_stats_row Samples.clk 2
                  (Samples.quiet Samples.pool_without_stats) eq_refl eq_refl eq_refl)
           error).
Defined.

(** ** [update_token]: what is written is what is read *)







(* ===================================================================== *)
(** * Properties of the sessions of the administrator *)
(* ===================================================================== *)

Lemma substring_whole (s : string) : String.substring 0 (String.length s) s = s.
Proof. induction s as [|c s IH]; simpl; [reflexivity | now rewrite IH]. Qed.

Lemma bearer_prefix (header : string) :
  String.prefix "Bearer " header = true ->
  header = ("Bearer " ++ String.substring 7 (String.length header - 7) header)%string.
Proof.
  intros H. apply String.prefix_correct in H.
  do 7 (destruct header as [|? header]; [discriminate|];
        cbn [String.substring String.length] in H; injection H as ? H; subst).
  cbn [String.substring String.length String.append Nat.sub].
  rewrite Nat.sub_0_r. now rewrite substring_whole.
Qed.

Lemma bearer_accepted (token : string) :
  String.prefix "Bearer " ("Bearer " ++ token) = true
  /\ String.substring 7 (String.length ("Bearer " ++ token) - 7) ("Bearer " ++ token)
     = token
  /\ (("Bearer " ++ token) =? "")%string = false.
Proof.
  split; [|split].
  - apply String.prefix_correct. cbn [String.append String.substring String.length].
    now destruct token.
  - cbn [String.append String.substring String.length Nat.sub].
    rewrite Nat.sub_0_r. apply substring_whole.
  - reflexivity.
Qed.

Lemma contains_add (active : admin_sessions.session_set) (token t : string) :
  admin_sessions.contains (admin_sessions.add token active) t
  = ((t =? token)%string || admin_sessions.contains active t).
Proof.
  unfold admin_sessions.add.
  destruct (admin_sessions.contains active token) eqn:Hc; simpl.
  - destruct (String.eqb_spec t token) as [Ht|Ht]; simpl; [now rewrite Ht, Hc | reflexivity].
  - reflexivity.
Qed.

Lemma contains_discard (active : admin_sessions.session_set) (token t : string) :
  admin_sessions.contains (admin_sessions.discard token active) t
  = (negb (t =? token)%string && admin_sessions.contains active t).
Proof.
  unfold admin_sessions.contains, admin_sessions.discard.
  induction active as [|a active IH]; simpl; [now rewrite andb_false_r|].
  destruct (String.eqb_spec a token) as [Ha|Ha]; simpl.
  - rewrite IH, Ha.
    destruct (String.eqb_spec t token) as [Ht|Ht]; reflexivity.
  - rewrite IH.
    destruct (String.eqb_spec t a) as [Hta|Hta]; simpl; [|reflexivity].
    destruct (String.eqb_spec t token) as [Ht|Ht]; [congruence | reflexivity].
Qed.

Lemma verify_admin_token_bearer (active : admin_sessions.session_set)
    (authorization : option string) (token : string) :
  admin_sessions.verify_admin_token active authorization = inr token <->
  authorization = Some ("Bearer " ++ token)%string
  /\ admin_sessions.contains active token = true.
Proof.
  unfold admin_sessions.verify_admin_token. split.
  - destruct authorization as [header|]; [|discriminate].
    destruct (String.eqb_spec header "") as [->|Hne]; simpl; [discriminate|].
    destruct (String.prefix "Bearer " header) eqn:Hp; simpl; [|discriminate].
    destruct (admin_sessions.contains active _) eqn:Hc; [|discriminate].
    intros H; injection H as <-. split; [|exact Hc].
    f_equal. now apply bearer_prefix.
  - intros [-> Hc].
    destruct (bearer_accepted token) as (Hp & Hsub & Hne).
    cbv zeta. rewrite Hne, Hp, Hsub, Hc. reflexivity.
Qed.

(** [verify_admin_token] lets a request through exactly when its header is
    "Bearer " followed by a token of the set, and then returns that token;
    every other header, and no header, is answered 401. *)
Theorem verify_admin_token_accepts (active : admin_sessions.session_set)
    (authorization : option string) :
  (forall token,
      admin_sessions.verify_admin_token active authorization = inr token <->
      authorization = Some ("Bearer " ++ token)%string
      /\ admin_sessions.contains active token = true)
  /\ (forall e,
         admin_sessions.verify_admin_token active authorization = inl e ->
         exists detail, e = HTTPException 401 detail).
Proof.
  split; [intros token; apply verify_admin_token_bearer|].
  unfold admin_sessions.verify_admin_token.
  - intros e. destruct authorization as [header|]; [|intros H; injection H as <-; eauto].
    repeat break_if; intros H; try discriminate; injection H as <-; eauto.
Qed.

(** After a logout the header that was accepted is answered 401, and every
    other session is accepted as before; a logout with a header that is not
    accepted changes nothing. *)
Theorem admin_logout_ends_session (active : admin_sessions.session_set)
    (authorization : option string) (w : world) :
  match admin_sessions.admin_logout authorization active w with
  | (inr _, active', w') =>
      w' = w
      /\ (exists detail,
             admin_sessions.verify_admin_token active' authorization
             = inl (HTTPException 401 detail))
      /\ (forall token,
             authorization <> Some ("Bearer " ++ token)%string ->
             admin_sessions.contains active' token = admin_sessions.contains active token)
  | (inl _, active', w') => active' = active /\ w' = w
  end.
Proof.
  unfold admin_sessions.admin_logout.
  destruct (admin_sessions.verify_admin_token active authorization) as [e|token] eqn:Hv;
    [split; reflexivity|].
  apply (proj1 (verify_admin_token_bearer active authorization token)) in Hv.
  destruct Hv as [-> Hc].
  split; [reflexivity|]. split.
  - unfold admin_sessions.verify_admin_token.
    destruct (bearer_accepted token) as (Hp & Hsub & Hne).
    cbv zeta. rewrite Hne, Hp, Hsub, contains_discard, String.eqb_refl. simpl. eauto.
  - intros t Hother. rewrite contains_discard.
    destruct (String.eqb_spec t token) as [Ht|Ht]; [congruence | reflexivity].
Qed.

(** A login never ends a session; the only session it can open is the one
    named "admin-" followed by the fresh secret, and only for credentials
    that [verify_admin] accepts; and the token it answers with is accepted by
    [verify_admin_token] from then on. *)
Theorem admin_login_opens_session (store : AdminStore.t) (urlsafe : string)
    (request : admin_sessions.LoginRequest) (active : admin_sessions.session_set)
    (w : world) :
  let '(out, active', _) := admin_sessions.admin_login store urlsafe request active w in
  (forall t, admin_sessions.contains active t = true ->
             admin_sessions.contains active' t = true)
  /\ (forall t, admin_sessions.contains active' t = true ->
                admin_sessions.contains active t = false ->
                t = ("admin-" ++ urlsafe)%string
                /\ AdminStore.verify_admin store (admin_sessions.username request)
                     (admin_sessions.password request) = true)
  /\ (forall r, out = inr r ->
                admin_sessions.login_token r = ("admin-" ++ urlsafe)%string
                /\ admin_sessions.verify_admin_token active'
                     (Some ("Bearer " ++ admin_sessions.login_token r)%string)
                   = inr (admin_sessions.login_token r)).
Proof.
  unfold admin_sessions.admin_login.
  destruct (AdminStore.get_admin_config store w) as [[e|admin_config] w1].
  { split; [auto|]. split; [congruence | discriminate]. }
  destruct (AdminStore.verify_admin store _ _) eqn:Hv; cbn [negb].
  2:{ split; [auto|]. split; [congruence | discriminate]. }
  assert (Hold : forall t, admin_sessions.contains active t = true ->
                           admin_sessions.contains
                             (admin_sessions.add ("admin-" ++ urlsafe) active) t = true).
  { intros t Ht. rewrite contains_add, Ht. apply orb_true_r. }
  assert (Hnew : forall t,
             admin_sessions.contains
               (admin_sessions.add ("admin-" ++ urlsafe) active) t = true ->
             admin_sessions.contains active t = false ->
             t = ("admin-" ++ urlsafe)%string /\ true = true).
  { intros t Ht Hn. rewrite contains_add, Hn, orb_false_r in Ht.
    split; [now apply String.eqb_eq | reflexivity]. }
  destruct admin_config as [cfg|]; cbv zeta.
  - split; [exact Hold|]. split; [exact Hnew|].
    intros r Hr. injection Hr as <-. cbn [admin_sessions.login_token].
    split; [reflexivity|].
    apply verify_admin_token_bearer. split; [reflexivity|].
    rewrite contains_add, String.eqb_refl. reflexivity.
  - split; [exact Hold|]. split; [exact Hnew | discriminate].
Qed.

(** A change of password that returns leaves no session: every header,
    the one of the caller included, is answered 401 afterwards.  It returns
    only for a caller with a session and the old password that
    [verify_admin] accepts.  A change of password that raises, at any of its
    steps, leaves every session as it was. *)
Theorem change_password_ends_all_sessions (store : AdminStore.t)
    (authorization : option string) (request : admin_sessions.ChangePasswordRequest)
    (active : admin_sessions.session_set) (w : world) :
  match admin_sessions.change_password store authorization request active w with
  | (inr _, active', _) =>
      (forall header, exists detail,
          admin_sessions.verify_admin_token active' header
          = inl (HTTPException 401 detail))
      /\ (exists token, authorization = Some ("Bearer " ++ token)%string
                        /\ admin_sessions.contains active token = true)
      /\ (exists admin_config w1,
             AdminStore.get_admin_config store w = (inr (Some admin_config), w1)
             /\ AdminStore.verify_admin store (AdminConfig.username admin_config)
                  (admin_sessions.old_password request) = true)
  | (inl _, active', _) => active' = active
  end.
Proof.
  unfold admin_sessions.change_password.
  destruct (admin_sessions.verify_admin_token active authorization) as [e|token] eqn:Hv;
    [reflexivity|].
  apply (proj1 (verify_admin_token_bearer active authorization token)) in Hv.
  destruct (AdminStore.get_admin_config store w) as [[e|[admin_config|]] w1];
    [reflexivity | | reflexivity].
  destruct (AdminStore.verify_admin store _ _) eqn:Hold; cbn [negb]; [|reflexivity].
  cbv zeta.
  destruct (AdminStore.update_admin_config store _ w1) as [[e|[]] w2]; [reflexivity|].
  destruct (AdminStore.reload_config_to_memory store w2) as [[e|[]] w3]; [reflexivity|].
  split; [|split].
  - intros header. unfold admin_sessions.verify_admin_token.
    destruct header as [header|]; [|eauto].
    destruct ((header =? "")%string || negb (String.prefix "Bearer " header));
      cbn [admin_sessions.contains existsb]; eauto.
  - exists token. exact Hv.
  - exists admin_config, w1. split; [reflexivity | exact Hold].
Qed.

(* ===================================================================== *)
(** * The counters of a row stay ordered *)
(* ===================================================================== *)

Import Counters.

Lemma within_totals_iff (s : TokenStats.t) :
  within_totals s = true <->
  0 <= TokenStats.today_image_count s <= TokenStats.image_count s
  /\ 0 <= TokenStats.today_video_count s <= TokenStats.video_count s
  /\ 0 <= TokenStats.today_error_count s <= TokenStats.error_count s
  /\ 0 <= TokenStats.consecutive_error_count s <= TokenStats.error_count s.
Proof. unfold within_totals. rewrite !andb_true_iff, !Z.leb_le. lia. Qed.

(** Each SET list of the store takes an ordered row to an ordered row. *)
Lemma set_lists_within_totals (clk : clock) (s : TokenStats.t) :
  within_totals s = true ->
  within_totals (set_image_new_day clk s) = true
  /\ within_totals (set_image_same_day clk s) = true
  /\ within_totals (set_video_new_day clk s) = true
  /\ within_totals (set_video_same_day clk s) = true
  /\ within_totals (set_error_new_day clk s) = true
  /\ within_totals (set_error_same_day clk s) = true
  /\ within_totals (set_no_consecutive_error s) = true.
Proof.
  rewrite !within_totals_iff.
  unfold set_image_new_day, set_image_same_day, set_video_new_day, set_video_same_day,
    set_error_new_day, set_error_same_day, set_no_consecutive_error.
  cbn [TokenStats.today_image_count TokenStats.image_count TokenStats.today_video_count
       TokenStats.video_count TokenStats.today_error_count TokenStats.error_count
       TokenStats.consecutive_error_count].
  lia.
Qed.

Lemma counters_ordered_kept_refl (d : db) : counters_ordered_kept d d.
Proof. intros H. exact H. Qed.

Lemma counters_ordered_kept_trans (d1 d2 d3 : db) :
  counters_ordered_kept d1 d2 -> counters_ordered_kept d2 d3 -> counters_ordered_kept d1 d3.
Proof. unfold counters_ordered_kept. auto. Qed.

Lemma counters_ordered_kept_same (d d' : db) :
  token_stats d' = token_stats d -> counters_ordered_kept d d'.
Proof. unfold counters_ordered_kept, counters_ordered. now intros ->. Qed.

Lemma counters_ordered_kept_update (token_id : Z) (set : TokenStats.t -> TokenStats.t)
    (written : TokenStats.t -> list Z) :
  (forall s, TokenStats.token_id (set s) = TokenStats.token_id s) ->
  (forall s, within_totals s = true -> within_totals (set s) = true) ->
  statement_keeps counters_ordered_kept (sql_update_token_stats token_id set written).
Proof.
  intros Hid Hset d.
  destruct (sql_update_token_stats_cases token_id set written Hid d)
    as [(e & ->) | (d' & -> & _ & Hs & _)]; simpl.
  - apply counters_ordered_kept_refl.
  - unfold counters_ordered_kept, counters_ordered. rewrite Hs, !forallb_forall.
    intros H s' Hin. apply in_map_iff in Hin. destruct Hin as (s & <- & Hin).
    destruct (TokenStats.token_id s =? token_id); auto.
Qed.

Lemma counters_ordered_kept_increment (clk : clock) (token_id : Z)
    (set_new_day set_same_day : TokenStats.t -> TokenStats.t)
    (written : TokenStats.t -> list Z) :
  (forall s, TokenStats.token_id (set_new_day s) = TokenStats.token_id s) ->
  (forall s, TokenStats.token_id (set_same_day s) = TokenStats.token_id s) ->
  (forall s, within_totals s = true -> within_totals (set_new_day s) = true) ->
  (forall s, within_totals s = true -> within_totals (set_same_day s) = true) ->
  keeps counters_ordered_kept
    (row <- conn_run (sql_select_today_date token_id) ;;
     if rolled_over clk row
     then conn_run (sql_update_token_stats token_id set_new_day written)
     else conn_run (sql_update_token_stats token_id set_same_day written))%coroutine.
Proof.
  intros Hn Hs Hwn Hws.
  apply (keeps_bind _ counters_ordered_kept_trans).
  - apply (keeps_conn_run _ counters_ordered_kept_refl).
    apply (keeps_int4_param _ counters_ordered_kept_refl).
    apply (keeps_query _ counters_ordered_kept_refl).
  - intros row.
    destruct (rolled_over clk row);
      apply (keeps_conn_run _ counters_ordered_kept_refl);
      now apply counters_ordered_kept_update.
Qed.

Lemma counters_ordered_kept_run (clk : clock) (c : call) :
  keeps counters_ordered_kept (run clk c).
Proof.
  destruct c;
    try (apply keeps_run_but_increment;
         try discriminate;
         try (intros; intros d; apply counters_ordered_kept_same;
              first [ apply sql_insert_token_token_stats
                    | apply sql_update_tokens_token_stats
                    | apply sql_delete_projects_of_frame
                    | apply sql_delete_token_token_stats
                    | apply sql_insert_project_frame
                    | apply sql_delete_project_frame
                    | apply sql_insert_task_frame
                    | apply sql_insert_request_log_frame
                    | reflexivity ]);
         [ apply counters_ordered_kept_refl
         | apply counters_ordered_kept_trans
         | (* INSERT INTO token_stats *)
           intros token_id' d;
           destruct (sql_insert_token_stats_cases token_id' d)
             as [(e & _ & _ & Hs) | (sid & _ & _ & Hs)];
           [ now apply counters_ordered_kept_same
           | unfold counters_ordered_kept, counters_ordered; rewrite Hs, forallb_app;
             intros ->; reflexivity ]
         | (* DELETE FROM token_stats *)
           intros token_id' d; unfold counters_ordered_kept, counters_ordered;
           rewrite !forallb_forall; intros H s Hin; apply H;
           unfold sql_delete_token_stats, int4_param, violation in Hin;
           destruct (int4_ok token_id'); simpl in Hin; [|exact Hin];
           apply filter_In in Hin; tauto
         | (* UPDATE token_stats SET consecutive_error_count = 0 *)
           intros token_id'; apply counters_ordered_kept_update;
           [ reflexivity | intros s Hs; now apply (set_lists_within_totals clk s) ] ]).
  simpl. unfold increment_token_stats.
  repeat break_if; try apply (keeps_ret _ counters_ordered_kept_refl);
    apply counters_ordered_kept_increment;
    try reflexivity; intros s Hs; now apply (set_lists_within_totals clk s).
Qed.

Lemma reachable_counters_ordered (d : db) : reachable d -> counters_ordered d = true.
Proof.
  induction 1 as [|d clk c fs out _ IH]; [reflexivity|].
  exact (counters_ordered_kept_run clk c (mk_world d fs out) IH).
Qed.

(** In every database the store can reach, the figures of the day of a row
    of [token_stats] are between zero and the figures of all time, and so is
    its run of consecutive errors against its errors. *)
Theorem reachable_counters_within_totals (d : db) (s : TokenStats.t) :
  reachable d -> In s (token_stats d) ->
  0 <= TokenStats.today_image_count s <= TokenStats.image_count s
  /\ 0 <= TokenStats.today_video_count s <= TokenStats.video_count s
  /\ 0 <= TokenStats.today_error_count s <= TokenStats.error_count s
  /\ 0 <= TokenStats.consecutive_error_count s <= TokenStats.error_count s.
Proof.
  intros Hd Hin. apply within_totals_iff.
  pose proof (reachable_counters_ordered d Hd) as Ho.
  unfold counters_ordered in Ho. rewrite forallb_forall in Ho. now apply Ho.
Qed.

Lemma reachable_counters_within_totals_witness :
  exists s, In s (token_stats Samples.one_error_one_image)
            /\ TokenStats.error_count s = 1
            /\ 0 <= TokenStats.consecutive_error_count s <= TokenStats.error_count s.
Proof.
  exists (TokenStats.mk 1 1 1 0 0 1 None (Some (current_timestamp Samples.clk))
            1 0 1 (Some 739558) 1).
  split; [left; reflexivity|]. split; [reflexivity|].
  apply (reachable_counters_within_totals Samples.one_error_one_image
           (TokenStats.mk 1 1 1 0 0 1 None (Some (current_timestamp Samples.clk))
              1 0 1 (Some 739558) 1)).
  - apply (reachable_call _ Samples.clk (call_increment_token_stats 1 "image") [] []).
    apply (reachable_call _ Samples.clk (call_increment_token_stats 1 "error") [] []).
    apply (reachable_call init_db Samples.clk (call_add_token Samples.fresh) [] []).
    apply reachable_init.
  - left. reflexivity.
Defined.

(** ** GET /api/stats *)

Lemma get_token_stats_inr (token_id : Z) (w w' : world) (row : option TokenStats.t) :
  get_token_stats token_id w = (inr row, w') ->
  store w' = store w /\ row = stats_row token_id (store w).
Proof.
  unfold get_token_stats. intros H. apply conn_run_inr in H. destruct H as [H _].
  unfold int4_param, query, violation, stats_row in *.
  destruct (int4_ok token_id); [|discriminate].
  injection H as <- <-. auto.
Qed.

Lemma add_up_within (tokens : list Token.t) :
  forall (acc acc' : admin_dashboard.sums) (w w' : world),
    counters_ordered (store w) = true ->
    admin_dashboard.add_up tokens acc w = (inr acc', w') ->
    store w' = store w
    /\ (0 <= admin_dashboard.sum_today_images acc <= admin_dashboard.sum_images acc ->
        0 <= admin_dashboard.sum_today_images acc' <= admin_dashboard.sum_images acc')
    /\ (0 <= admin_dashboard.sum_today_videos acc <= admin_dashboard.sum_videos acc ->
        0 <= admin_dashboard.sum_today_videos acc' <= admin_dashboard.sum_videos acc')
    /\ (0 <= admin_dashboard.sum_today_errors acc <= admin_dashboard.sum_errors acc ->
        0 <= admin_dashboard.sum_today_errors acc' <= admin_dashboard.sum_errors acc').
Proof.
  induction tokens as [|t rest IH]; intros acc acc' w w' Ho H.
  - injection H as <- <-. auto.
  - cbn [admin_dashboard.add_up] in H. unfold bind in H.
    destruct (get_token_stats (Token.id t) w) as [[e|row] w1] eqn:Hg; [discriminate|].
    apply get_token_stats_inr in Hg. destruct Hg as [Hst ->].
    apply IH in H; [|now rewrite Hst].
    destruct H as (Hst' & Hi & Hv & He).
    split; [congruence|].
    assert (Hrow : forall s, stats_row (Token.id t) (store w) = Some s ->
                             within_totals s = true).
    { intros s Hs. apply find_some in Hs. destruct Hs as [Hin _].
      unfold counters_ordered in Ho. rewrite forallb_forall in Ho. now apply Ho. }
    destruct (stats_row (Token.id t) (store w)) as [s|]; [|auto].
    specialize (Hrow s eq_refl). apply within_totals_iff in Hrow.
    cbn [admin_dashboard.add_stats admin_dashboard.sum_images admin_dashboard.sum_videos
         admin_dashboard.sum_errors admin_dashboard.sum_today_images
         admin_dashboard.sum_today_videos admin_dashboard.sum_today_errors] in Hi, Hv, He.
    repeat split; intros; first [apply Hi | apply Hv | apply He]; lia.
Qed.

(** On a database the store can reach, and with a token manager whose
    [get_all_tokens] only reads, the dashboard never shows more for the day
    than for all time, nor more active credentials than credentials; and it
    leaves the database as it found it. *)
Theorem get_stats_today_within_totals (get_all_tokens : M (list Token.t))
    (w w' : world) (r : admin_dashboard.stats) :
  reachable (store w) ->
  (forall w0, store (snd (get_all_tokens w0)) = store w0) ->
  admin_dashboard.get_stats get_all_tokens w = (inr r, w') ->
  0 <= admin_dashboard.today_images r <= admin_dashboard.total_images r
  /\ 0 <= admin_dashboard.today_videos r <= admin_dashboard.total_videos r
  /\ 0 <= admin_dashboard.today_errors r <= admin_dashboard.total_errors r
  /\ 0 <= admin_dashboard.active_tokens r <= admin_dashboard.total_tokens r
  /\ store w' = store w.
Proof.
  intros Hd Hread H. unfold admin_dashboard.get_stats, bind, ret in H.
  pose proof (Hread w) as Hst.
  destruct (get_all_tokens w) as [[e|tokens] w1]; [discriminate|]. simpl in Hst.
  destruct (admin_dashboard.add_up tokens _ w1) as [[e|acc] w2] eqn:Hsum; [discriminate|].
  injection H as <- <-.
  apply add_up_within in Hsum;
    [|rewrite Hst; now apply reachable_counters_ordered].
  destruct Hsum as (Hst' & Hi & Hv & He).
  cbn [admin_dashboard.sum_images admin_dashboard.sum_videos admin_dashboard.sum_errors
       admin_dashboard.sum_today_images admin_dashboard.sum_today_videos
       admin_dashboard.sum_today_errors] in Hi, Hv, He.
  cbn [admin_dashboard.today_images admin_dashboard.total_images
       admin_dashboard.today_videos admin_dashboard.total_videos
       admin_dashboard.today_errors admin_dashboard.total_errors
       admin_dashboard.active_tokens admin_dashboard.total_tokens].
  split; [apply Hi; lia|]. split; [apply Hv; lia|]. split; [apply He; lia|].
  split; [|congruence].
  pose proof (filter_length_le admin_dashboard.is_active tokens). lia.
Qed.

Lemma get_stats_today_within_totals_witness :
  fst (admin_dashboard.get_stats (ret [Samples.fresh])
         (Samples.quiet Samples.one_error_one_image))
  = inr (admin_dashboard.mk_stats 1 1 1 0 1 1 0 1)
  /\ 0 <= 1 <= 1.
Proof.
  split; [reflexivity|].
  apply (get_stats_today_within_totals (ret [Samples.fresh])
           (Samples.quiet Samples.one_error_one_image)
           (snd (admin_dashboard.get_stats (ret [Samples.fresh])
                   (Samples.quiet Samples.one_error_one_image)))
           (admin_dashboard.mk_stats 1 1 1 0 1 1 0 1)).
  - apply (reachable_call _ Samples.clk (call_increment_token_stats 1 "image") [] []).
    apply (reachable_call _ Samples.clk (call_increment_token_stats 1 "error") [] []).
    apply (reachable_call init_db Samples.clk (call_add_token Samples.fresh) [] []).
    apply reachable_init.
  - intros w0. reflexivity.
  - reflexivity.
Defined.

(* ===================================================================== *)
(** * What the two previews of a token show *)
(* ===================================================================== *)

Lemma chars_length (s : string) :
  List.length (list_ascii_of_string s) = String.length s.
Proof. induction s as [|c s IH]; simpl; congruence. Qed.

Lemma chars_append (s1 s2 : string) :
  list_ascii_of_string (s1 ++ s2)
  = (list_ascii_of_string s1 ++ list_ascii_of_string s2)%list.
Proof. induction s1 as [|c s1 IH]; simpl; congruence. Qed.

Lemma chars_substring (s : string) :
  forall n m, list_ascii_of_string (String.substring n m s)
              = firstn m (skipn n (list_ascii_of_string s)).
Proof.
  induction s as [|c s IH]; intros [|n] [|m]; simpl; try reflexivity.
  - now rewrite (IH 0%nat m).
  - now rewrite (IH n 0%nat).
  - now rewrite (IH n (S m)).
Qed.

Lemma chars_same (s1 s2 : string) :
  list_ascii_of_string s1 = list_ascii_of_string s2 -> s1 = s2.
Proof.
  intros H. rewrite <- (string_of_list_ascii_of_string s1), H.
  apply string_of_list_ascii_of_string.
Qed.

(** A preview of the shape [token[:a] + "..." + token[-b:]] of a token of at
    least [a] and at least [b] characters: its length and its two ends. *)
Lemma preview_ends (a b : nat) (t : string) :
  (0 < b)%nat -> (a <= String.length t)%nat -> (b <= String.length t)%nat ->
  let m := (Slices.first a t ++ "..." ++ Slices.last b t)%string in
  String.length m = (a + 3 + b)%nat
  /\ Slices.first a m = Slices.first a t
  /\ Slices.last b m = Slices.last b t.
Proof.
  intros Hb Ha Hbt m.
  assert (Hlen : String.length m = (a + 3 + b)%nat).
  { subst m. unfold Slices.first, Slices.last.
    rewrite <- !chars_length, !chars_append, !length_app, !chars_substring,
      !length_firstn, !length_skipn, !chars_length. simpl. lia. }
  split; [exact Hlen|]. split.
  - apply chars_same. unfold Slices.first. rewrite chars_substring. subst m.
    unfold Slices.first. rewrite chars_append, !chars_substring. cbn [skipn].
    rewrite firstn_app, length_firstn, chars_length.
    replace (a - Nat.min a (String.length t))%nat with 0%nat by lia.
    cbn [firstn]. rewrite app_nil_r. apply firstn_all2.
    rewrite length_firstn. lia.
  - apply chars_same. unfold Slices.last at 1. rewrite Hlen, chars_substring. subst m.
    unfold Slices.first, Slices.last.
    rewrite !chars_append, !chars_substring. cbn [skipn].
    rewrite skipn_app, length_firstn, chars_length.
    replace (Nat.min a (String.length t)) with a by lia.
    replace (a + 3 + b - b - a)%nat with 3%nat by lia.
    rewrite (skipn_all2 (n := (a + 3 + b - b)%nat));
      [|rewrite length_firstn, chars_length; lia].
    cbn [app list_ascii_of_string skipn].
    apply firstn_all2. rewrite length_firstn, length_skipn, chars_length. lia.
Qed.

(** The token is its first [a] characters, the [n - a - b] after them, and
    its last [b]. *)
Lemma between_ends (a b : nat) (t : string) :
  (0 < b)%nat -> (a + b <= String.length t)%nat ->
  t = (Slices.first a t
       ++ String.substring a (String.length t - a - b) t
       ++ Slices.last b t)%string.
Proof.
  intros Hb Hab. apply chars_same. unfold Slices.first, Slices.last.
  rewrite !chars_append, !chars_substring. cbn [skipn].
  set (l := list_ascii_of_string t).
  assert (Hl : List.length l = String.length t) by apply chars_length.
  rewrite <- Hl.
  rewrite <- (firstn_skipn a l) at 1. f_equal.
  rewrite <- (firstn_skipn (List.length l - a - b) (skipn a l)) at 1. f_equal.
  rewrite skipn_skipn.
  replace (List.length l - a - b + a)%nat with (List.length l - b)%nat by lia.
  symmetry. apply firstn_all2. rewrite length_skipn. lia.
Qed.

(** The preview [_mask_token] of [admin.py] makes of a token of more than 24
    characters has 29 characters: the first 18 of the token, three dots, the
    last 8.  From 26 characters on, the token has [n - 26] more characters
    between the two ends shown; a token of 25 or 26 characters can be read
    back whole from its preview. *)
Theorem admin_mask_token_preview (t : string) :
  (24 < String.length t)%nat ->
  let m := admin_preview._mask_token (Some t) in
  String.length m = 29%nat
  /\ Slices.first 18 m = Slices.first 18 t
  /\ Slices.last 8 m = Slices.last 8 t
  /\ ((26 <= String.length t)%nat ->
      exists hidden, String.length hidden = (String.length t - 26)%nat
                     /\ t = (Slices.first 18 t ++ hidden ++ Slices.last 8 t)%string)
  /\ ((String.length t <= 26)%nat ->
      t = (Slices.first 18 m ++ Slices.last (String.length t - 18) m)%string).
Proof.
  intros Hlen. unfold admin_preview._mask_token.
  assert (Hne : (t =? "")%string = false) by (destruct t; [simpl in Hlen; lia | reflexivity]).
  assert (Hlong : (String.length t <=? 24)%nat = false) by (apply Nat.leb_gt; lia).
  rewrite Hne, Hlong. cbv zeta.
  destruct (preview_ends 18 8 t) as (Hm & Hfirst & Hlast); try lia.
  split; [exact Hm|]. split; [exact Hfirst|]. split; [exact Hlast|]. split.
  - intros Hn. exists (String.substring 18 (String.length t - 18 - 8) t). split.
    + rewrite <- chars_length, chars_substring, length_firstn, length_skipn, chars_length.
      lia.
    + apply between_ends; lia.
  - intros Hn. rewrite Hfirst.
    set (m := (Slices.first 18 t ++ "..." ++ Slices.last 8 t)%string) in *.
    apply chars_same. unfold Slices.last at 1. rewrite Hm.
    rewrite chars_append, chars_substring. subst m.
    unfold Slices.first, Slices.last.
    rewrite !chars_append, !chars_substring. cbn [skipn].
    set (l := list_ascii_of_string t).
    assert (Hl : List.length l = String.length t) by apply chars_length.
    rewrite <- Hl in *.
    rewrite skipn_app, length_firstn.
    rewrite (skipn_all2 (firstn 18 l)); [|rewrite length_firstn; lia].
    cbn [app].
    rewrite <- (firstn_skipn 18 l) at 1. f_equal.
    rewrite skipn_app.
    rewrite (skipn_all2 (list_ascii_of_string "..."))
      by (cbn [list_ascii_of_string List.length]; lia).
    cbn [app]. rewrite skipn_firstn_comm, skipn_skipn, firstn_firstn.
    cbn [list_ascii_of_string List.length].
    match goal with
    | |- _ = firstn _ (skipn ?k l) => replace k with 18%nat by lia
    end.
    symmetry. apply firstn_all2. rewrite length_skipn. lia.
Qed.

Lemma admin_mask_token_preview_witness :
  admin_preview._mask_token (Some "ya29.a0AfB_byC3xYzTokenEx")
  = "ya29.a0AfB_byC3xYz...zTokenEx"%string
  /\ String.length (admin_preview._mask_token (Some "ya29.a0AfB_byC3xYzTokenEx")) = 29%nat.
Proof.
  split; [reflexivity|].
  apply (admin_mask_token_preview "ya29.a0AfB_byC3xYzTokenEx").
  simpl. lia.
Defined.

(** The preview [_mask_token] of the logger makes of a token of more than 12
    characters, when masking is on, has 15 characters: the first 6 of the
    token, three dots, the last 6; and the token has at least one more
    character between the two ends shown.  With masking off the token is
    printed whole. *)
Theorem logger_mask_token_hides (t : string) :
  (12 < String.length t)%nat ->
  let m := logger_preview._mask_token true t in
  String.length m = 15%nat
  /\ Slices.first 6 m = Slices.first 6 t
  /\ Slices.last 6 m = Slices.last 6 t
  /\ (exists hidden, String.length hidden = (String.length t - 12)%nat
                     /\ t = (Slices.first 6 t ++ hidden ++ Slices.last 6 t)%string)
  /\ logger_preview._mask_token false t = t.
Proof.
  intros Hlen. unfold logger_preview._mask_token.
  assert (Hlong : (String.length t <=? 12)%nat = false) by (apply Nat.leb_gt; lia).
  rewrite Hlong. cbn [negb orb]. cbv zeta.
  destruct (preview_ends 6 6 t) as (Hm & Hfirst & Hlast); try lia.
  split; [exact Hm|]. split; [exact Hfirst|]. split; [exact Hlast|].
  split; [|reflexivity].
  exists (String.substring 6 (String.length t - 6 - 6) t). split.
  - rewrite <- chars_length, chars_substring, length_firstn, length_skipn, chars_length.
    lia.
  - apply between_ends; lia.
Qed.

Lemma logger_mask_token_hides_witness :
  logger_preview._mask_token true "ya29.a0AfB_byC" = "ya29.a...fB_byC"%string
  /\ String.length (logger_preview._mask_token true "ya29.a0AfB_byC") = 15%nat.
Proof.
  split; [reflexivity|].
  apply (logger_mask_token_hides "ya29.a0AfB_byC").
  simpl. lia.
Defined.
